(** * bane-emote-board: search adapters, scroll driver, media cache, favorites

    A shallow embedding of the paging and caching core of
    [bane-emote-board.py]: the data sources ([TenorSource], [EmojiSource],
    [LocalSource]), the scroll driver of [App] ([search], [load_more],
    [display_results], [check_scroll], [fill_screen_if_needed]), the cache
    file naming of [ImageCard.load_bytes], the favorites toggle of
    [ImageCard.toggle_fav] and [cleanup_temp_files].

    Conventions.
    - A Python [str] is kept as the byte string of its UTF-8 encoding;
      equality, [in] and [endswith] on valid UTF-8 agree with the
      code-point versions.  The library functions that depend on the
      Unicode tables ([str.lower], [str.title], [chr], [unicodedata.name])
      and the per-process [hash] are Section variables.
    - A Python [int] is a [Z]. *)

From Stdlib Require Import ZArith List String Ascii Bool Lia Permutation Sorted.
From stdpp Require Import base gmap strings list pretty.
Import ListNotations.
Open Scope Z_scope.

(** ** Python strings *)

(** [q in s] on [str]. *)
Fixpoint str_in (q s : string) : bool :=
  String.prefix q s ||
  match s with
  | EmptyString => false
  | String _ s' => str_in q s'
  end.

(** [s.endswith(suf)]. *)
Fixpoint endswith (s suf : string) : bool :=
  String.eqb s suf ||
  match s with
  | EmptyString => false
  | String _ s' => endswith s' suf
  end.

(** [s.endswith((suf1, suf2, ...))]. *)
Definition endswith_any (s : string) (sufs : list string) : bool :=
  existsb (endswith s) sufs.

(** Truthiness of a [str]. *)
Definition str_truthy (s : string) : bool := negb (String.eqb s "").

(** [str(dir / fname)] for a file name without separators. *)
Definition path_join (dir fname : string) : string := dir +:+ "/" +:+ fname.

(** ** Python list slicing *)

(** How [l[lo:hi]] clamps one bound against [n = len(l)]. *)
Definition slice_bound (n i : Z) : Z :=
  if i <? 0 then Z.max (i + n) 0 else Z.min i n.

(** [l[lo:hi]]. *)
Definition py_slice {A} (l : list A) (lo hi : Z) : list A :=
  let n := Z.of_nat (length l) in
  let a := slice_bound n lo in
  let b := slice_bound n hi in
  firstn (Z.to_nat (b - a)) (skipn (Z.to_nat a) l).

(** [len(l)]. *)
Definition len {A} (l : list A) : Z := Z.of_nat (length l).

(** ** Result items

    The dicts the sources build:
    [{"name": .., "url": .., "type": .., "source": ..}], with
    ["original_url"] present only on imported local files. *)

Record item := mk_item {
  name : string;
  url : string;
  type : string;
  source : string;
  original_url : option string
}.

Global Instance item_eq_dec : EqDecision item.
Proof. solve_decision. Defined.

Definition BATCH_SIZE : Z := 50.

(** ** Favorites ([ImageCard.toggle_fav], lines 592-615; [is_favorited], lines 580-586) *)

(** What is on disk at [FAVS_FILE]. *)
Inductive favs_file :=
| FavsMissing
| FavsCorrupt
| FavsList (favs : list item).

(** [favs = []; if FAVS_FILE.exists(): try: favs = json.load(f) except: pass] *)
Definition load_favs (f : favs_file) : list item :=
  match f with
  | FavsList favs => favs
  | FavsMissing | FavsCorrupt => []
  end.

(** The loop
    [for i, item in enumerate(favs):
       if item['url'] == self.data['url']: favs.pop(i); found = True; break].
    [None] is [found = False] (the list is untouched). *)
Fixpoint pop_first_match (u : string) (favs : list item) : option (list item) :=
  match favs with
  | [] => None
  | x :: rest =>
      if String.eqb (url x) u then Some rest
      else option_map (cons x) (pop_first_match u rest)
  end.

(** [toggle_fav]: the file after [json.dump(favs, f)] and the flag handed to
    [update_star_style] ([not found]: the item is now a favorite). *)
Definition toggle_fav (data : item) (f : favs_file) : favs_file * bool :=
  let favs := load_favs f in
  match pop_first_match (url data) favs with
  | Some favs' => (FavsList favs', false)
  | None => (FavsList (favs ++ [data]), true)
  end.

(** [is_favorited]. *)
Definition is_favorited (data : item) (f : favs_file) : bool :=
  existsb (fun x => String.eqb (url x) (url data)) (load_favs f).

(** A run of toggles, oldest first (each one reads and rewrites the file). *)
Definition toggle_all (ds : list item) (f : favs_file) : favs_file :=
  foldl (λ f d, fst (toggle_fav d f)) f ds.

Definition fav_urls (f : favs_file) : list string := url <$> load_favs f.

(** Two favorite lists hold the same entities: [url] is the identity key, so
    they carry the same urls with the same multiplicities, in any order. *)
Definition content_equal (s t : list item) : Prop :=
  (url <$> s) ≡ₚ (url <$> t).

(** ** Media cache ([ImageCard.__init__], lines 531-545; [ImageCard.load_bytes], lines 630-638; [ImageDownloadWorker], lines 397-408) *)

Section Cache.

(** The built-in [hash] on [str]: seeded once per process, so one
    function for the whole run. *)
Variable hash : string → Z.
(** [str(DATA_DIR)]. *)
Variable DATA_DIR : string.

(** [ext = ".gif" if self.data['type'] == 'gif' else ".webp"] *)
Definition cache_ext (data : item) : string :=
  if String.eqb (type data) "gif" then ".gif" else ".webp".

(** [fname = f"tmp_{abs(hash(self.data['url']))}{ext}"] *)
Definition cache_fname (data : item) : string :=
  "tmp_" +:+ pretty (Z.abs (hash (url data))) +:+ cache_ext data.

(** [load_bytes(data_bytes, local_path)]: the [self.local_path] it sets and
    the file write it performs, if any. *)
Definition load_bytes (data : item) (data_bytes : option (list Byte.byte))
    (local_path : option string) : string * option (string * list Byte.byte) :=
  let cached :=
    let path := path_join DATA_DIR (cache_fname data) in
    match data_bytes with
    | Some (b :: bs) => (path, Some (path, b :: bs))
    | Some [] | None => (path, None)
    end in
  match local_path with
  | Some p => if str_truthy p then (p, None) else cached
  | None => cached
  end.

(** How [ImageDownloadWorker.run] ends: [image_loaded] on status 200,
    [failed] on any other status or exception. *)
Inductive download :=
| image_loaded (content : list Byte.byte)
| failed (msg : string).

(** The dispatch at the end of [ImageCard.__init__] followed by the
    worker's signal: the card's [local_path] once the item is resolved
    ([None]: the download failed and [local_path] was never set). *)
Definition materialize (data : item) (dl : download) : option string :=
  if String.eqb (type data) "emoji" then Some "EMOJI"
  else if String.eqb (type data) "local" then
    Some (fst (load_bytes data None (Some (url data))))
  else
    match dl with
    | image_loaded content => Some (fst (load_bytes data (Some content) None))
    | failed _ => None
    end.

End Cache.

(** A url made of [n] letters. *)
Fixpoint a_url (n : nat) : string :=
  match n with
  | O => ""
  | S n' => String "a" (a_url n')
  end.

(** ** [cleanup_temp_files] (lines 79-85) and [App.closeEvent] (lines 966-968) *)

Section Cleanup.

(** Whether [p.unlink()] succeeds on the entry named [p]; a failure is
    caught and printed, and the sweep goes on. *)
Variable unlink_ok : string → bool.

(** [DATA_DIR.glob("tmp_*")] over the names of the entries of the
    directory. *)
Definition glob_tmp (entries : gset string) : list string :=
  List.filter (String.prefix "tmp_") (elements entries).

(** One turn of the loop: [try: p.unlink() except Exception: print(..)]. *)
Definition unlink_step (entries : gset string) (p : string) : gset string :=
  if unlink_ok p then entries ∖ {[p]} else entries.

(** [cleanup_temp_files]: the data directory ([None]: it does not exist)
    before and after. *)
Definition cleanup_temp_files (data_dir : option (gset string))
    : option (gset string) :=
  match data_dir with
  | None => None
  | Some entries => Some (foldl unlink_step entries (glob_tmp entries))
  end.

(** [closeEvent]: [cleanup_temp_files(); event.accept()]. *)
Definition closeEvent (data_dir : option (gset string)) : option (gset string) :=
  cleanup_temp_files data_dir.

End Cleanup.

(** ** Cursors and paging *)

(** [offset = pos if pos else 0] for a cursor that is [None] or an [int]. *)
Definition offset_of (pos : option Z) : Z :=
  match pos with
  | Some p => if p =? 0 then 0 else p
  | None => 0
  end.

(** [next_offset = offset + len(sliced);
     if next_offset >= len(all): next_offset = None] *)
Definition next_offset_of {A} (offset : Z) (sliced all : list A) : option Z :=
  let next_offset := offset + len sliced in
  if next_offset >=? len all then None else Some next_offset.

(** Calling [search] again and again, each time with the cursor the last
    call returned, until it returns [None]: the pages in order, or [None]
    when [fuel] calls were not enough. *)
Fixpoint cursor_chain {A} (search : option Z → list A * option Z)
    (fuel : nat) (pos : option Z) : option (list (list A)) :=
  match fuel with
  | O => None
  | S fuel' =>
      let '(page, next_pos) := search pos in
      match next_pos with
      | None => Some [page]
      | Some p => cons page <$> cursor_chain search fuel' (Some p)
      end
  end.

(** A search that serves the list [all] by offset, page after page, each
    entry shown through [g]. *)
Definition serves {A B} (search : option Z → list B * option Z)
    (all : list A) (g : A → B) : Prop :=
  ∀ pos, 0 ≤ offset_of pos →
    let sliced := take 50 (drop (Z.to_nat (offset_of pos)) all) in
    search pos = (g <$> sliced, next_offset_of (offset_of pos) sliced all).

(** [str.lower] on ASCII text, for the examples. *)
Definition lower_char (c : ascii) : ascii :=
  let n := nat_of_ascii c in
  if ((65 <=? n) && (n <=? 90))%nat then ascii_of_nat (n + 32) else c.

Fixpoint ascii_lower (s : string) : string :=
  match s with
  | EmptyString => EmptyString
  | String c s' => String (lower_char c) (ascii_lower s')
  end.

(** ** [EmojiSource] (lines 287-345) *)

Section Emoji.

(** [unicodedata.name(chr(code))]: [None] stands for the [ValueError] of a
    code point without a name. *)
Variable unicodedata_name : Z → option string.
Variable chr : Z → string.
Variable lower : string → string.
Variable title : string → string.

Definition emoji_ranges : list (Z * Z) :=
  [ (0x1F600, 0x1F64F); (0x1F300, 0x1F5FF); (0x1F680, 0x1F6FF);
    (0x1F900, 0x1F9FF); (0x2600, 0x26FF); (0x2700, 0x27BF);
    (0x1F1E0, 0x1F1FF); (0x1FA70, 0x1FAFF) ].

(** [range(start, end + 1)] *)
Definition code_range (r : Z * Z) : list Z :=
  (λ i, fst r + Z.of_nat i) <$> seq 0 (Z.to_nat (snd r + 1 - fst r)).

(** The body of the inner loop of [_load_emojis] on
    [(self.all_emojis, seen)]. *)
Definition load_emoji (st : list item * gset string) (code : Z)
    : list item * gset string :=
  let '(all_emojis, seen) := st in
  let char := chr code in
  match unicodedata_name code with
  | Some n =>
      let name := lower n in
      if decide (char ∈ seen) then st
      else (all_emojis ++ [mk_item (title name) char "emoji" "Emoji" None],
            {[char]} ∪ seen)
  | None => st
  end.

(** [self.all_emojis] after [__init__]. *)
Definition _load_emojis : list item :=
  fst (foldl load_emoji ([], ∅) (mjoin (code_range <$> emoji_ranges))).

(** [q in item['name'].lower() or q == item['url']] *)
Definition emoji_matches (q : string) (it : item) : bool :=
  str_in q (lower (name it)) || String.eqb q (url it).

Definition EmojiSource_search (all_emojis : list item) (query : string)
    (pos : option Z) : list item * option Z :=
  let offset := offset_of pos in
  if str_truthy query then
    let q := lower query in
    let filtered := List.filter (emoji_matches q) all_emojis in
    let sliced := py_slice filtered offset (offset + BATCH_SIZE) in
    (sliced, next_offset_of offset sliced filtered)
  else
    let sliced := py_slice all_emojis offset (offset + BATCH_SIZE) in
    match sliced with
    | [] => ([], None)
    | _ => (sliced, next_offset_of offset sliced all_emojis)
    end.

End Emoji.

(** What the [seen] set maintains along [_load_emojis]. *)
Definition catalog_inv (st : list item * gset string) : Prop :=
  NoDup (url <$> st.1) ∧ ∀ u, u ∈ (url <$> st.1) → u ∈ st.2.

(** ** [LocalSource] (lines 347-381) *)

(** What is on disk at [IMPORTS_FILE]. *)
Inductive imports_file :=
| ImportsMissing
| ImportsCorrupt
| ImportsMap (imports_map : gmap string string).

Section Local.

Variable lower : string → string.
(** [str(LOCAL_IMG_DIR)]. *)
Variable LOCAL_IMG_DIR : string.

Definition image_exts : list string :=
  [".png"; ".jpg"; ".jpeg"; ".gif"; ".webp"].

(** [imports_map = {}; if IMPORTS_FILE.exists(): try: .. json.load ..] *)
Definition load_imports (f : imports_file) : gmap string string :=
  match f with
  | ImportsMap m => m
  | ImportsMissing | ImportsCorrupt => ∅
  end.

(** The test that puts [f] into [all_files]. *)
Definition local_matches (query f : string) : bool :=
  endswith_any (lower f) image_exts
  && (negb (str_truthy query) || str_in (lower query) (lower f)).

(** The dict built for one file of the slice. *)
Definition local_item (imports_map : gmap string string) (f : string) : item :=
  mk_item f (path_join LOCAL_IMG_DIR f) "local" "Local" (imports_map !! f).

(** [LocalSource.search].  [listdir] is [os.listdir(LOCAL_IMG_DIR)] in the
    order the operating system gives ([None]: the directory does not
    exist). *)
Definition LocalSource_search (listdir : option (list string))
    (imports : imports_file) (query : string) (pos : option Z)
    : list item * option Z :=
  let offset := offset_of pos in
  match listdir with
  | None => ([], None)
  | Some files =>
      let imports_map := load_imports imports in
      let all_files := List.filter (local_matches query) files in
      let sliced := py_slice all_files offset (offset + BATCH_SIZE) in
      match sliced with
      | [] => ([], None)
      | _ => (local_item imports_map <$> sliced,
              next_offset_of offset sliced all_files)
      end
  end.

End Local.

(** ** Decoded JSON and other dynamically typed values *)

(** The values [json.load] and [r.json()] produce, which are also the values
    a cursor can be ([None], an [int] offset or page, a [str] token).  A
    dict is the list of its entries, keys distinct; numbers are integers. *)
#[local] Set Warnings "-register-all".
Inductive pyval :=
| PNone
| PBool (b : bool)
| PInt (n : Z)
| PStr (s : string)
| PList (l : list pyval)
| PDict (kv : list (string * pyval)).
#[local] Set Warnings "+register-all".

(** Truthiness, as [if v:] and [v or w] test it. *)
Definition truthy (v : pyval) : bool :=
  match v with
  | PNone => false
  | PBool b => b
  | PInt n => negb (n =? 0)
  | PStr s => str_truthy s
  | PList l => match l with [] => false | _ => true end
  | PDict kv => match kv with [] => false | _ => true end
  end.

(** [v or w]. *)
Definition py_or (v w : pyval) : pyval := if truthy v then v else w.

Fixpoint assoc (k : string) (kv : list (string * pyval)) : option pyval :=
  match kv with
  | [] => None
  | (k', v) :: kv' => if String.eqb k' k then Some v else assoc k kv'
  end.

(** An operation that can raise returns an [option]: [None] is the raised
    exception ([AttributeError], [KeyError], [TypeError], [IndexError]). *)

(** [d.get(k, default)]: only a dict has [get]. *)
Definition py_get (d : pyval) (k : string) (default : pyval) : option pyval :=
  match d with
  | PDict kv => Some (from_option id default (assoc k kv))
  | _ => None
  end.

(** [d[k]] for a [str] key [k]. *)
Definition py_getitem (d : pyval) (k : string) : option pyval :=
  match d with
  | PDict kv => assoc k kv
  | _ => None
  end.

(** [l[0]]: the first element of a list, the first character of a [str]
    (its first byte here; the caller goes on with [.get], which no [str]
    has); a dict has no key [0], a number no items. *)
Definition py_first (l : pyval) : option pyval :=
  match l with
  | PList (x :: _) => Some x
  | PStr (String c _) => Some (PStr (String c ""))
  | _ => None
  end.

(** [k in v] for a [str] [k]. *)
Definition py_contains (k : string) (v : pyval) : option bool :=
  match v with
  | PDict kv => Some (bool_decide (is_Some (assoc k kv)))
  | PList l =>
      Some (existsb (λ x, match x with PStr s => String.eqb s k | _ => false end) l)
  | PStr s => Some (str_in k s)
  | PNone | PBool _ | PInt _ => None
  end.

(** What [for item in v] runs over. *)
Definition py_iter (v : pyval) : option (list pyval) :=
  match v with
  | PList l => Some l
  | PDict kv => Some ((λ e, PStr (fst e)) <$> kv)
  | PStr s => Some ((λ c, PStr (String c "")) <$> list_ascii_of_string s)
  | PNone | PBool _ | PInt _ => None
  end.

(** ** Configuration ([load_config], lines 56-73) *)

Definition DEFAULT_TENOR_KEY : string := "LIVDSRZULELA".

(** What is on disk at [CONFIG_FILE]. *)
Inductive config_file :=
| ConfigMissing
| ConfigCorrupt
| ConfigJson (saved : pyval).

(** [load_config]: the keys other than ["theme"] (the sources read only
    ["tenor_key"]); anything raised while reading leaves the defaults. *)
Definition load_config (f : config_file) : gmap string pyval :=
  let cfg : gmap string pyval := {[ "tenor_key" := PStr DEFAULT_TENOR_KEY ]} in
  match f with
  | ConfigJson (PDict saved) =>
      foldl (λ cfg e, if String.eqb (fst e) "theme" then cfg
                      else <[fst e := snd e]> cfg) cfg saved
  | _ => cfg
  end.

(** ** [TenorSource] (lines 220-258) *)

(** How [requests.get(url, params=params, timeout=10)] ends. *)
Inductive http_result :=
| http_raises
| http_response (status_code : Z) (json : option pyval).

Section Tenor.

(** The network: the outcome of a GET for a url and its parameters. *)
Variable requests_get : string → list (string * pyval) → http_result.
Variable strip : string → string.

(** [api_key == DEFAULT_TENOR_KEY] *)
Definition is_default_key (api_key : pyval) : bool :=
  match api_key with
  | PStr s => String.eqb s DEFAULT_TENOR_KEY
  | _ => false
  end.

(** [url] and [params], either dialect, with ["pos"] added [if pos]. *)
Definition tenor_request (api_key : pyval) (query : string) (pos : pyval)
    : string * list (string * pyval) :=
  let with_pos params :=
    if truthy pos then params ++ [("pos", pos)] else params in
  if is_default_key api_key then
    ("https://g.tenor.com/v1/search",
     with_pos [("q", PStr query); ("key", api_key); ("limit", PInt BATCH_SIZE)])
  else
    ("https://tenor.googleapis.com/v2/search",
     with_pos [("q", PStr query); ("key", api_key);
               ("client_key", PStr "bane_board_v1");
               ("limit", PInt BATCH_SIZE); ("media_filter", PStr "minimal")]).

(** [formats.get('tinygif') or formats.get('gif')], then
    [if gif_obj: gif_url = gif_obj['url']]. *)
Definition tenor_gif_url (formats : pyval) : option pyval :=
  tiny ← py_get formats "tinygif" PNone;
  gif_obj ← (if truthy tiny then Some tiny else py_get formats "gif" PNone);
  if truthy gif_obj then py_getitem gif_obj "url" else Some PNone.

(** [item.get(k, '').strip()] *)
Definition tenor_text (item : pyval) (k : string) : option string :=
  v ← py_get item k (PStr "");
  match v with PStr s => Some (strip s) | _ => None end.

(** The body of [for item in data.get('results', [])]: [None] when it
    raises, otherwise the dict it appends, if any.  [if gif_url:] looks at
    truthiness only, so the ["url"] of that dict is whatever truthy value
    the response holds at [gif_obj['url']], a [str] or not. *)
Definition tenor_item (it : pyval) : option (option pyval) :=
  has_formats ← py_contains "media_formats" it;
  gif_url ←
    (if has_formats : bool then
       formats ← py_getitem it "media_formats"; tenor_gif_url formats
     else
       has_media ← py_contains "media" it;
       if has_media : bool then
         media_list ← py_get it "media" (PList []);
         if truthy media_list then
           first ← py_first media_list; tenor_gif_url first
         else Some PNone
       else Some PNone);
  description ← tenor_text it "content_description";
  title ←
    (if str_truthy description then Some description
     else t ← tenor_text it "title";
          Some (if str_truthy t then t else "GIF"));
  Some (if truthy gif_url then
          Some (PDict [ ("name", PStr title); ("url", gif_url);
                        ("type", PStr "gif"); ("source", PStr "Tenor") ])
        else None).

(** The [for] loop inside the [try]: it stops at the first item that
    raises and keeps what was appended before. *)
Fixpoint tenor_results (items : list pyval) (results : list pyval) : list pyval :=
  match items with
  | [] => results
  | it :: items' =>
      match tenor_item it with
      | None => results
      | Some None => tenor_results items' results
      | Some (Some r) => tenor_results items' (results ++ [r])
      end
  end.

(** [TenorSource.search]. *)
Definition TenorSource_search (cfg : config_file) (query : string) (pos : pyval)
    : list pyval * pyval :=
  let results := [] in
  let config := load_config cfg in
  let api_key := from_option id (PStr DEFAULT_TENOR_KEY) (config !! "tenor_key") in
  let next_pos := PNone in
  let '(url, params) := tenor_request api_key query pos in
  match requests_get url params with
  | http_raises => (results, next_pos)
  | http_response status_code json =>
      if status_code =? 200 then
        match json with
        | None => (results, next_pos)
        | Some data =>
            match py_get data "next" PNone with
            | None => (results, next_pos)
            | Some next =>
                let next_pos := py_or next
                  (from_option id PNone (py_get data "next_pos" PNone)) in
                match py_get data "results" (PList []) ≫= py_iter with
                | None => (results, next_pos)
                | Some items => (tenor_results items results, next_pos)
                end
            end
        end
      else (results, next_pos)
  end.

End Tenor.


(** The request did not come back with status 200: [requests.get] raised
    (timeout, transport error) or answered with another status. *)
Definition http_failed (r : http_result) : Prop :=
  match r with
  | http_raises => True
  | http_response status_code _ => status_code ≠ 200
  end.

(** ** The scroll driver ([App], lines 836-842 and 980-1042; [SearchWorker], lines 386-395) *)

Inductive widget :=
| ImageCard (data : item)
| QLabel (text : string).

(** A started [SearchWorker] that has not emitted [results_ready] yet.
    [w_session] is a ghost field, no code reads it: the number of the
    search during which the worker was started. *)
Record SearchWorker := {
  w_source : string;
  w_query : string;
  w_pos : pyval;
  w_session : nat
}.

(** The fields of [App] the driver uses, the worker threads running for it,
    and the ghost counter of searches started. *)
Record App := {
  next_ptr : pyval;
  is_loading : bool;
  current_query : string;
  current_source_name : string;
  search_card_widgets : list widget;
  loading_indicator : bool;
  in_flight : list SearchWorker;
  session : nat
}.

(** The fields as [App.__init__] sets them. *)
Definition App_init : App :=
  {| next_ptr := PNone; is_loading := false; current_query := "";
     current_source_name := ""; search_card_widgets := [];
     loading_indicator := false; in_flight := []; session := 0 |}.

Definition load_more (app : App) : App :=
  {| next_ptr := next_ptr app;
     is_loading := true;
     current_query := current_query app;
     current_source_name := current_source_name app;
     search_card_widgets := search_card_widgets app;
     loading_indicator :=
       match search_card_widgets app with
       | [] => true
       | _ => loading_indicator app
       end;
     in_flight :=
       in_flight app ++
       [ {| w_source := current_source_name app; w_query := current_query app;
            w_pos := next_ptr app; w_session := session app |} ];
     session := session app |}.

(** [search], with the text of the combo box and of the search field. *)
Definition search (source_name query : string) (app : App) : App :=
  load_more
    {| next_ptr := PNone;
       is_loading := is_loading app;
       current_query := query;
       current_source_name := source_name;
       search_card_widgets := [];
       loading_indicator := loading_indicator app;
       in_flight := in_flight app;
       session := S (session app) |}.

(** [display_results(results, next_pos)], the slot of [results_ready]. *)
Definition display_results (results : list item) (next_pos : pyval) (app : App)
    : App :=
  {| next_ptr := next_pos;
     is_loading := false;
     current_query := current_query app;
     current_source_name := current_source_name app;
     search_card_widgets :=
       match results, search_card_widgets app with
       | [], [] => [QLabel "No results found."]
       | _, _ => search_card_widgets app ++ (ImageCard <$> results)
       end;
     loading_indicator := false;
     in_flight := in_flight app;
     session := session app |}.

(** [bar.value() > bar.maximum() * 0.9], on the integers the scroll bar
    reports (for 32-bit values the double product decides as the exact
    one does). *)
Definition over_threshold (value maximum : Z) : bool := 10 * value >? 9 * maximum.

(** [check_scroll], with the scroll bar's value and maximum. *)
Definition check_scroll (value maximum : Z) (app : App) : App :=
  if over_threshold value maximum then
    if negb (is_loading app) && truthy (next_ptr app) then load_more app
    else app
  else app.

(** [fill_screen_if_needed], with the scroll bar's value and maximum. *)
Definition fill_screen_if_needed (value maximum : Z) (app : App) : App :=
  if is_loading app || negb (truthy (next_ptr app)) then app
  else if (maximum <=? 0) || (10 * value >=? 9 * maximum) then load_more app
  else app.

(** What happens to the window: the user searches or scrolls, a
    [QTimer.singleShot(50, self.fill_screen_if_needed)] fires (one may be
    pending at any time), a running worker emits [results_ready] or ends
    without emitting (its [run] raised). *)
Inductive event :=
| Search (source_name query : string)
| Scroll (value maximum : Z)
| FillTimer (value maximum : Z)
| Results (i : nat) (results : list item) (next_pos : pyval)
| WorkerDies (i : nat).

Definition step (app : App) (e : event) : App :=
  match e with
  | Search source_name query => search source_name query app
  | Scroll value maximum => check_scroll value maximum app
  | FillTimer value maximum => fill_screen_if_needed value maximum app
  | Results i results next_pos =>
      match in_flight app !! i with
      | Some _ =>
          display_results results next_pos
            {| next_ptr := next_ptr app; is_loading := is_loading app;
               current_query := current_query app;
               current_source_name := current_source_name app;
               search_card_widgets := search_card_widgets app;
               loading_indicator := loading_indicator app;
               in_flight := delete i (in_flight app);
               session := session app |}
      | None => app
      end
  | WorkerDies i =>
      {| next_ptr := next_ptr app; is_loading := is_loading app;
         current_query := current_query app;
         current_source_name := current_source_name app;
         search_card_widgets := search_card_widgets app;
         loading_indicator := loading_indicator app;
         in_flight := delete i (in_flight app);
         session := session app |}
  end.

Definition run (events : list event) (app : App) : App := foldl step app events.

(** The events of one session after its [Search]: anything but a new
    search. *)
Definition same_session (e : event) : bool :=
  match e with Search _ _ => false | _ => true end.

(** Worker [i] is running for an earlier search than the current one. *)
Definition stale (app : App) (i : nat) : Prop :=
  ∃ w, in_flight app !! i = Some w ∧ w_session w ≠ session app.

(** The running workers that were started during the current search. *)
Definition current_fetches (app : App) : list SearchWorker :=
  List.filter (λ w, w_session w =? session app)%nat (in_flight app).

(** What the [loading] flag is meant to maintain: no fetch is outstanding,
    or exactly one is and the flag is up. *)
Definition serialized (app : App) : Prop :=
  in_flight app = [] ∨ (is_loading app = true ∧ length (in_flight app) = 1%nat).

(** The cards on display, in order. *)
Definition shown_items (app : App) : list item :=
  omap (λ w, match w with ImageCard d => Some d | QLabel _ => None end)
       (search_card_widgets app).

(** ** [SevenTVSource] (lines 260-285) *)

Section SevenTV.

(** The network: the outcome of the POST for a query and a page number. *)
Variable requests_post : string → pyval → http_result.

(** [page = pos if pos else 1] *)
Definition seventv_page (pos : pyval) : pyval :=
  if truthy pos then pos else PInt 1.

(** [page + 1]: defined on an [int] (and on [True], which is [1]). *)
Definition py_succ (v : pyval) : option pyval :=
  match v with
  | PInt n => Some (PInt (n + 1))
  | PBool b => Some (PInt (Z.b2z b + 1))
  | _ => None
  end.

(** The body of [for item in items]: [None] when it raises, otherwise the
    [name] and [url] of the dict it appends, if any (its [type] is
    ["webp"], its [source] ["7TV"]); the name is whatever the response
    holds. *)
Definition seventv_item (it : pyval) : option (option (pyval * string)) :=
  name ← py_get it "name" (PStr "Emote");
  host ← py_get it "host" (PDict []);
  base ← py_get host "url" PNone;
  if truthy base then
    match base with
    | PStr b =>
        let b := if String.prefix "//" b then "https:" +:+ b else b in
        Some (Some (name, b +:+ "/2x.webp"))
    | _ => None
    end
  else Some None.

(** The [for] loop: what was appended, and whether the loop ran to its
    end ([false]: an item raised). *)
Fixpoint seventv_results (items : list pyval) (results : list (pyval * string))
    : list (pyval * string) * bool :=
  match items with
  | [] => (results, true)
  | it :: items' =>
      match seventv_item it with
      | None => (results, false)
      | Some None => seventv_results items' results
      | Some (Some r) => seventv_results items' (results ++ [r])
      end
  end.

(** [SevenTVSource.search]. *)
Definition SevenTVSource_search (query : string) (pos : pyval)
    : list (pyval * string) * pyval :=
  let page := seventv_page pos in
  let results := [] in
  match requests_post query page with
  | http_raises => (results, PNone)
  | http_response status_code json =>
      if status_code =? 200 then
        match json with
        | None => (results, PNone)
        | Some data =>
            match py_get data "data" PNone with
            | None => (results, PNone)
            | Some d =>
                if truthy d then
                  match py_get d "emotes" PNone with
                  | None => (results, PNone)
                  | Some emotes =>
                      if truthy emotes then
                        match py_getitem emotes "items" with
                        | None => (results, PNone)
                        | Some items =>
                            if truthy items then
                              match py_iter items with
                              | None => (results, PNone)
                              | Some l =>
                                  match seventv_results l results with
                                  | (results, true) =>
                                      (results, default PNone (py_succ page))
                                  | (results, false) => (results, PNone)
                                  end
                              end
                            else ([], PNone)
                        end
                      else (results, PNone)
                  end
                else (results, PNone)
            end
        end
      else (results, PNone)
  end.

End SevenTV.


(** ** What the catalog and the driver are made of *)

Section EmojiEntries.

Variable unicodedata_name : Z → option string.
Variable chr : Z → string.
Variable lower : string → string.
Variable title : string → string.

(** An entry built from a named code point among [codes], as the loop of
    [_load_emojis] builds it. *)
Definition from_a_named_code (codes : list Z) (it : item) : Prop :=
  ∃ code n, code ∈ codes ∧ unicodedata_name code = Some n
    ∧ it = mk_item (title (lower n)) (chr code) "emoji" "Emoji" None.

End EmojiEntries.

(** ** A search worker on the emoji source ([SearchWorker.run], lines 393-395) *)

Section EmojiWorker.

Variable lower : string → string.
Variable all_emojis : list item.

(** The cursor as [EmojiSource.search] uses it: [None] or an [int] ([True]
    and [False] are the ints 1 and 0); any other value makes the slice
    raise. *)
Definition int_cursor (pos : pyval) : option (option Z) :=
  match pos with
  | PNone => Some None
  | PInt n => Some (Some n)
  | PBool b => Some (Some (Z.b2z b))
  | PStr _ | PList _ | PDict _ => if truthy pos then None else Some None
  end.

(** [res, next_pos = self.source.search(self.query, self.pos)] for the
    emoji source: what [results_ready] carries, or [None] when [run]
    raises. *)
Definition emoji_worker_run (w : SearchWorker) : option (list item * pyval) :=
  pos ← int_cursor (w_pos w);
  let r := EmojiSource_search lower all_emojis (w_query w) pos in
  Some (r.1, match r.2 with Some n => PInt n | None => PNone end).

(** One round of filling the screen: the running worker delivers its page
    (or dies), then the timer set by [display_results] finds the viewport
    not yet full ([bar.maximum() <= 0]). *)
Definition fill_round (app : App) : App :=
  match in_flight app with
  | w :: _ =>
      match emoji_worker_run w with
      | Some (results, next_pos) =>
          step (step app (Results 0 results next_pos)) (FillTimer 0 0)
      | None => step app (WorkerDies 0)
      end
  | [] => app
  end.

Fixpoint fill_rounds (n : nat) (app : App) : App :=
  match n with
  | O => app
  | S n' => fill_rounds n' (fill_round app)
  end.

(** Between two rounds: the worker for the page at [offset] is the only
    one running, and the entries before [offset] are on display. *)
Definition filling (catalog : list item) (query : string) (offset : nat)
    (app : App) : Prop :=
  (offset ≤ length catalog)%nat
  ∧ shown_items app = take offset catalog
  ∧ (offset = O → search_card_widgets app = [])
  ∧ is_loading app = true
  ∧ current_query app = query
  ∧ ∃ w, in_flight app = [w] ∧ w_query w = query
         ∧ w_pos w = (if offset is O then PNone else PInt (Z.of_nat offset)).

(** After the last page: everything is on display and nothing runs. *)
Definition filled (catalog : list item) (app : App) : Prop :=
  shown_items app = catalog ∧ in_flight app = []
  ∧ is_loading app = false ∧ next_ptr app = PNone.

End EmojiWorker.

(** ** The favorites tab ([App.load_favorites], lines 1044-1073) *)

Section FavoritesTab.

Variable lower : string → string.

(** [not query or query in item.get('name', '').lower()
     or query in item.get('url', '').lower()] *)
Definition fav_matches (query : string) (it : item) : bool :=
  negb (str_truthy query)
  || str_in query (lower (name it)) || str_in query (lower (url it)).

(** [load_favorites], with the text of the favorites search field: the
    widgets it puts into [self.fav_card_widgets]. *)
Definition load_favorites (text : string) (f : favs_file) : list widget :=
  let query := lower text in
  match f with
  | FavsList favs =>
      match List.filter (fav_matches query) favs with
      | [] =>
          [QLabel (if str_truthy query then "No favorites match search."
                   else "No favorites yet. Click the ★ on an image!")]
      | filtered_favs => ImageCard <$> filtered_favs
      end
  | FavsMissing | FavsCorrupt => []
  end.

End FavoritesTab.

(** The cards among some widgets, in order. *)
Definition cards (ws : list widget) : list item :=
  omap (λ w, match w with ImageCard d => Some d | QLabel _ => None end) ws.

(** ** The grid ([App.reflow_grids], lines 936-961) *)

Definition CARD_WIDTH : Z := 180.
Definition MIN_SPACING : Z := 10.

(** [cols = max(1, int((width - MIN_SPACING) // (CARD_WIDTH + MIN_SPACING)))] *)
Definition reflow_cols (width : Z) : Z :=
  Z.max 1 ((width - MIN_SPACING) / (CARD_WIDTH + MIN_SPACING)).

(** [spacing = int(remaining_space / (cols + 1))], raised to [MIN_SPACING]
    (the quotient of two 32-bit integers as a double, truncated, is their
    truncated quotient). *)
Definition reflow_spacing (width : Z) : Z :=
  let cols := reflow_cols width in
  let remaining_space := width - cols * CARD_WIDTH in
  let spacing := remaining_space ÷ (cols + 1) in
  if spacing <? MIN_SPACING then MIN_SPACING else spacing.

(** [(row, col) = (i // cols, i % cols)], where widget [i] is placed. *)
Definition grid_cell (cols : Z) (i : nat) : Z * Z :=
  (Z.of_nat i / cols, Z.of_nat i mod cols).

(** ** Downloads ([ImageDownloadWorker.run], lines 403-408) *)

(** How [requests.get(self.url, ...)] ends for a media download. *)
Inductive get_result :=
| get_raises (msg : string)
| get_response (status_code : Z) (content : list Byte.byte).

Definition ImageDownloadWorker_run (r : get_result) : download :=
  match r with
  | get_response status_code content =>
      if status_code =? 200 then image_loaded content
      else failed ("HTTP " +:+ pretty status_code)
  | get_raises msg => failed msg
  end.

Section CardFiles.

Variable hash : string → Z.
Variable DATA_DIR : string.

(** The file a card writes while it resolves its item: the branches of
    [ImageCard.__init__] as in [materialize], with the write of
    [load_bytes] instead of its path. *)
Definition card_write (data : item) (dl : download)
    : option (string * list Byte.byte) :=
  if String.eqb (type data) "emoji" then None
  else if String.eqb (type data) "local" then
    snd (load_bytes hash DATA_DIR data None (Some (url data)))
  else
    match dl with
    | image_loaded content => snd (load_bytes hash DATA_DIR data (Some content) None)
    | failed _ => None
    end.

End CardFiles.

(** ** Import from a URL ([App.import_from_url], lines 1096-1127) *)

(** How [requests.get(url, timeout=15)] ends for an import, with
    [r.headers.get('content-type')]. *)
Inductive import_get :=
| import_get_raises
| import_get_response (status_code : Z) (content_type : option string)
    (content : list Byte.byte).

(** What the user is told, and what reached the disk. *)
Inductive import_outcome :=
| import_nothing
| import_done (fname : string) (content : list Byte.byte) (imports : imports_file)
| import_warning (status_code : Z)
| import_critical.

Section ImportUrl.

Variable hash : string → Z.
(** [mimetypes.guess_extension] on the content type of the response:
    [None] when it raises, [Some None] when it knows no extension. *)
Variable guess_extension : option string → option (option string).

(** The extension when [guess_extension] gave none. *)
Definition url_ext (url : string) : string :=
  if endswith url ".gif" then ".gif"
  else if endswith url ".webp" then ".webp"
  else if endswith url ".png" then ".png"
  else ".jpg".

(** [fname = f"imported_{abs(hash(url))}{ext}"] *)
Definition import_fname (url ext : string) : string :=
  "imported_" +:+ pretty (Z.abs (hash url)) +:+ ext.

(** The inner [try]: read [IMPORTS_FILE] if it exists, add the entry, write
    it back; an unreadable file raises before anything is written. *)
Definition record_import (fname url : string) (f : imports_file) : imports_file :=
  match f with
  | ImportsMissing => ImportsMap {[ fname := url ]}
  | ImportsMap imports => ImportsMap (<[ fname := url ]> imports)
  | ImportsCorrupt => ImportsCorrupt
  end.

(** [import_from_url], with the answer of the input dialog, the outcome of
    the download and whether the image file could be written. *)
Definition import_from_url (ok : bool) (url : string) (r : import_get)
    (write_ok : bool) (imports : imports_file) : import_outcome :=
  if ok && str_truthy url then
    match r with
    | import_get_raises => import_critical
    | import_get_response status_code content_type content =>
        if status_code =? 200 then
          match guess_extension content_type with
          | None => import_critical
          | Some guessed =>
              let ext :=
                match guessed with
                | Some e => if str_truthy e then e else url_ext url
                | None => url_ext url
                end in
              let fname := import_fname url ext in
              if write_ok then
                import_done fname content (record_import fname url imports)
              else import_critical
          end
        else import_warning status_code
    end
  else import_nothing.

End ImportUrl.

(** * Properties *)

Section FavoritesFacts.

Lemma pop_first_match_None u favs :
  pop_first_match u favs = None ↔ u ∉ (url <$> favs).
Proof.
  induction favs as [|x rest IH]; simpl.
  - split; [intros _; apply not_elem_of_nil | done].
  - rewrite not_elem_of_cons.
    destruct (String.eqb_spec (url x) u) as [E|E].
    + split; [done | intros [H _]; congruence].
    + destruct (pop_first_match u rest); simpl.
      * split; [done | intros [_ H]; apply IH in H; done].
      * split; [intros _; split; [congruence | by apply IH] | done].
Qed.

Lemma pop_first_match_Some u favs favs' :
  pop_first_match u favs = Some favs' →
  ∃ l1 x l2,
    favs = l1 ++ x :: l2 ∧ url x = u ∧ (u ∉ url <$> l1) ∧ favs' = l1 ++ l2.
Proof.
  revert favs'. induction favs as [|y rest IH]; simpl; intros favs' H.
  - done.
  - destruct (String.eqb_spec (url y) u) as [E|E].
    + injection H as <-. exists [], y, rest. simpl.
      repeat split; [done | apply not_elem_of_nil].
    + destruct (pop_first_match u rest) as [r|] eqn:Hr; [|done].
      injection H as <-.
      destruct (IH r eq_refl) as (l1 & x & l2 & -> & Hx & Hn & ->).
      exists (y :: l1), x, l2. simpl. repeat split; auto.
      rewrite not_elem_of_cons. split; [congruence | done].
Qed.

Lemma toggle_fav_NoDup data f :
  NoDup (fav_urls f) → NoDup (fav_urls (fst (toggle_fav data f))).
Proof.
  unfold fav_urls, toggle_fav. intros Hnd.
  destruct (pop_first_match (url data) (load_favs f)) as [favs'|] eqn:Hp; simpl.
  - apply pop_first_match_Some in Hp as (l1 & x & l2 & Hl & _ & _ & ->).
    rewrite Hl in Hnd. rewrite fmap_app in *. rewrite fmap_cons in Hnd.
    apply NoDup_app in Hnd as (H1 & H12 & H2).
    apply NoDup_cons in H2 as [_ H2].
    apply NoDup_app. repeat split; auto.
    intros u Hu Hu'. apply (H12 u Hu). by right.
  - apply pop_first_match_None in Hp.
    rewrite fmap_app. simpl.
    apply NoDup_app. repeat split; [done | | apply NoDup_singleton].
    intros u Hu Hu'. apply list_elem_of_singleton in Hu'. by subst.
Qed.

Lemma pop_first_match_app u l1 x l2 :
  u ∉ (url <$> l1) → url x = u →
  pop_first_match u (l1 ++ x :: l2) = Some (l1 ++ l2).
Proof.
  intros Hn Hx. induction l1 as [|y l1 IH]; simpl.
  - by rewrite (proj2 (String.eqb_eq _ _) Hx).
  - rewrite fmap_cons, not_elem_of_cons in Hn. destruct Hn as [Hy Hn].
    destruct (String.eqb_spec (url y) u) as [E|E]; [congruence|].
    by rewrite (IH Hn).
Qed.

(** C8: the favorite set holds at most one entry per url; from a file
    without duplicate urls every toggle, hence every run of toggles (two
    toggles of one url included), leaves a file without duplicate urls. *)
Theorem toggle_fav_keeps_one_entry_per_url (ds : list item) (f : favs_file) :
  NoDup (fav_urls f) → NoDup (fav_urls (toggle_all ds f)).
Proof.
  unfold toggle_all. revert f.
  induction ds as [|d ds IH]; intros f Hnd; simpl; [done|].
  apply IH. by apply toggle_fav_NoDup.
Qed.

(** C7: toggling the same item twice leaves a duplicate-free favorite set
    content-equal to what it was.  When the url was absent the file comes
    back identical; when an entry with that url was stored, the other
    entries keep their order and the toggled item stands at the end in its
    place, so when the very record was stored the records are the same. *)
Theorem toggle_fav_twice_content_equal (x : item) (S : list item) :
  NoDup (url <$> S) →
  let f2 := toggle_all [x; x] (FavsList S) in
  content_equal (load_favs f2) S
  ∧ (url x ∉ (url <$> S) → f2 = FavsList S)
  ∧ (∀ l1 y l2, S = l1 ++ y :: l2 → url y = url x →
       f2 = FavsList (l1 ++ l2 ++ [x]))
  ∧ (x ∈ S → load_favs f2 ≡ₚ S).
Proof.
  intros Hnd. unfold toggle_all, toggle_fav, content_equal. simpl.
  destruct (pop_first_match (url x) S) as [S'|] eqn:Hp; simpl.
  - apply pop_first_match_Some in Hp as (l1 & y & l2 & -> & Hy & Hn1 & ->).
    pose proof Hnd as Hnd0.
    rewrite fmap_app, fmap_cons in Hnd.
    apply NoDup_app in Hnd as (H1 & H12 & H2).
    apply NoDup_cons in H2 as [Hn2 H2]. rewrite Hy in Hn2.
    assert (Hn : url x ∉ (url <$> (l1 ++ l2))).
    { rewrite fmap_app, elem_of_app. tauto. }
    rewrite (proj2 (pop_first_match_None _ _) Hn). simpl.
    split; [|split; [|split]].
    + rewrite !fmap_app, !fmap_cons, Hy. simpl.
      rewrite <- app_assoc. apply Permutation_app_head.
      symmetry. apply Permutation_cons_append.
    + intros Habs. exfalso. apply Habs.
      rewrite fmap_app, fmap_cons, elem_of_app, elem_of_cons. auto.
    + intros l1' y' l2' Heq Hy'.
      assert (Hn' : url x ∉ (url <$> l1')).
      { rewrite Heq, fmap_app, fmap_cons in Hnd0.
        apply NoDup_app in Hnd0 as (_ & Hd & _).
        intros Hin. apply (Hd _ Hin). rewrite Hy'. by left. }
      assert (Hpop : pop_first_match (url x) (l1 ++ y :: l2) = Some (l1' ++ l2')).
      { rewrite Heq. by apply pop_first_match_app. }
      rewrite pop_first_match_app in Hpop by done.
      injection Hpop as ->. by rewrite <- app_assoc.
    + intros Hx.
      assert (x = y) as ->.
      { apply elem_of_app in Hx as [Hx|Hx].
        - exfalso. apply Hn1. apply list_elem_of_fmap. eauto.
        - apply elem_of_cons in Hx as [Hx|Hx]; [done|].
          exfalso. apply Hn2. apply list_elem_of_fmap. eauto. }
      rewrite <- app_assoc. apply Permutation_app_head.
      symmetry. apply Permutation_cons_append.
  - apply pop_first_match_None in Hp as Hn.
    rewrite (pop_first_match_app (url x) S x [] Hn eq_refl).
    rewrite app_nil_r. simpl. repeat split; try done.
    intros l1 y l2 -> Hy. exfalso. apply Hn.
    rewrite fmap_app, fmap_cons, elem_of_app, elem_of_cons. auto.
Qed.

Lemma toggle_fav_keeps_one_entry_per_url_witness :
  let x := mk_item "Cat" "https://media.tenor.com/cat.gif" "gif" "Tenor" None in
  NoDup (fav_urls (toggle_all [x; x] FavsMissing)).
Proof.
  intros x. apply (toggle_fav_keeps_one_entry_per_url [x; x] FavsMissing).
  apply NoDup_nil_2.
Defined.

Lemma toggle_fav_twice_content_equal_witness :
  let x := mk_item "Cat" "https://media.tenor.com/cat.gif" "gif" "Tenor" None in
  let y := mk_item "Pepe" "https://cdn.7tv.app/emote/1/2x.webp" "webp" "7TV" None in
  toggle_all [x; x] (FavsList [y]) = FavsList [y].
Proof.
  intros x y.
  refine (proj1 (proj2 (toggle_fav_twice_content_equal x [y] _)) _).
  - apply NoDup_singleton.
  - vm_compute. intros H. apply list_elem_of_singleton in H. discriminate.
Defined.

End FavoritesFacts.

(** ** The shutdown sweep *)

Section CleanupFacts.

Variable unlink_ok : string → bool.

Lemma elem_of_glob_tmp entries p :
  p ∈ glob_tmp entries ↔ p ∈ entries ∧ String.prefix "tmp_" p = true.
Proof.
  unfold glob_tmp. rewrite list_elem_of_In, filter_In, <- list_elem_of_In.
  by rewrite elem_of_elements.
Qed.

Lemma elem_of_unlink_all (l : list string) (entries : gset string) p :
  p ∈ foldl (unlink_step unlink_ok) entries l ↔
  p ∈ entries ∧ ¬ (p ∈ l ∧ unlink_ok p = true).
Proof.
  revert entries. induction l as [|q l IH]; intros entries; simpl.
  - split; [intros H; split; [done|] | tauto].
    intros [H' _]. by apply not_elem_of_nil in H'.
  - rewrite IH. unfold unlink_step. rewrite elem_of_cons.
    destruct (unlink_ok q) eqn:Hq.
    + rewrite elem_of_difference, elem_of_singleton.
      split.
      * intros [[Hp Hne] Hn]. split; [done|].
        intros [[->|Hl] Hok]; [done | tauto].
      * intros [Hp Hn]. split; [split; [done|] |].
        -- intros ->. apply Hn. auto.
        -- intros [Hl Hok]. apply Hn. auto.
    + split.
      * intros [Hp Hn]. split; [done|].
        intros [[->|Hl] Hok]; [congruence | tauto].
      * intros [Hp Hn]. split; [done|]. intros [Hl Hok]. apply Hn. auto.
Qed.

(** C10: the sweep run at shutdown goes over every entry of the data
    directory whose name starts with [tmp_], whoever created it; when each
    of these deletions succeeds, what remains is exactly the entries
    without the prefix, so no transient cache file is left. *)
Theorem closeEvent_sweeps_every_tmp_file (entries : gset string) :
  (∀ p, p ∈ entries → String.prefix "tmp_" p = true → unlink_ok p = true) →
  ∃ entries',
    closeEvent unlink_ok (Some entries) = Some entries' ∧
    ∀ p, p ∈ entries' ↔ p ∈ entries ∧ String.prefix "tmp_" p = false.
Proof.
  intros Hok. eexists. split; [reflexivity|]. intros p.
  rewrite elem_of_unlink_all, elem_of_glob_tmp.
  destruct (String.prefix "tmp_" p) eqn:Hpre.
  - split; [|intros [_ ?]; done].
    intros [Hp Hn]. exfalso. apply Hn. auto.
  - split; [tauto|]. intros [Hp _]. split; [done|].
    intros [[_ ?] _]. done.
Qed.

End CleanupFacts.

Lemma closeEvent_sweeps_every_tmp_file_witness :
  ∃ entries',
    closeEvent (λ _, true)
      (Some {[ "tmp_123.gif"; "favorites.json"; "tmp_77.webp" ]}) = Some entries' ∧
    ∀ p, p ∈ entries' ↔
         p ∈ ({[ "tmp_123.gif"; "favorites.json"; "tmp_77.webp" ]} : gset string)
         ∧ String.prefix "tmp_" p = false.
Proof.
  apply (closeEvent_sweeps_every_tmp_file (λ _, true)). intros; reflexivity.
Defined.

(** ** Cache file names *)

Section StringFacts.

Lemma list_ascii_of_string_app s t :
  list_ascii_of_string (s +:+ t) = list_ascii_of_string s ++ list_ascii_of_string t.
Proof. induction s as [|c s IH]; simpl; [done | by rewrite <- IH]. Qed.

Lemma string_app_inv_tail s1 s2 t : s1 +:+ t = s2 +:+ t → s1 = s2.
Proof.
  intros H. apply (f_equal list_ascii_of_string) in H.
  rewrite !list_ascii_of_string_app in H. apply app_inv_tail in H.
  rewrite <- (string_of_list_ascii_of_string s1),
          <- (string_of_list_ascii_of_string s2). by rewrite H.
Qed.

Lemma gif_is_not_webp s1 s2 : s1 +:+ ".gif" ≠ s2 +:+ ".webp".
Proof.
  intros H. apply (f_equal list_ascii_of_string) in H.
  rewrite !list_ascii_of_string_app in H.
  change (list_ascii_of_string ".gif")
    with (["."; "g"; "i"] ++ ["f"])%char%list in H.
  change (list_ascii_of_string ".webp")
    with (["."; "w"; "e"; "b"] ++ ["p"])%char%list in H.
  rewrite !app_assoc in H. apply app_inj_tail in H as [_ H]. discriminate.
Qed.

Lemma string_length_neq s t : String.length s ≠ String.length t → s ≠ t.
Proof. congruence. Qed.

End StringFacts.

Lemma find_value (f : nat → Z) (v : Z) (n : nat) :
  (∃ i, (i ≤ n)%nat ∧ f i = v) ∨ (∀ i, (i ≤ n)%nat → f i ≠ v).
Proof.
  induction n as [|n [(i & Hi & E)|Hn]].
  - destruct (Z.eq_dec (f O) v) as [E|E]; [left; exists O; auto|].
    right. intros i Hi. by replace i with O by lia.
  - left. exists i. split; [lia | done].
  - destruct (Z.eq_dec (f (S n)) v) as [E|E]; [left; exists (S n); auto|].
    right. intros i Hi. destruct (Nat.eq_dec i (S n)) as [->|Hne]; [done|].
    apply Hn. lia.
Qed.

(** Among [n + 1] values taken in a range of size [n], two coincide. *)
Lemma pigeonhole (n : nat) : ∀ f : nat → Z,
  (∀ i, (i ≤ n)%nat → 0 ≤ f i < Z.of_nat n) →
  ∃ i j, (i < j ≤ n)%nat ∧ f i = f j.
Proof.
  induction n as [|n IH]; intros f Hf.
  - specialize (Hf O (Nat.le_refl _)). lia.
  - destruct (find_value f (f (S n)) n) as [(i & Hi & E)|Hne].
    + exists i, (S n). split; [lia | done].
    + destruct (IH (λ i, if f i <? f (S n) then f i else f i - 1))
        as (i & j & Hij & E).
      * intros i Hi. specialize (Hne i Hi).
        pose proof (Hf i ltac:(lia)). pose proof (Hf (S n) ltac:(lia)).
        destruct (Z.ltb_spec (f i) (f (S n))); lia.
      * exists i, j. split; [lia|].
        pose proof (Hne i ltac:(lia)). pose proof (Hne j ltac:(lia)).
        simpl in E.
        destruct (Z.ltb_spec (f i) (f (S n))), (Z.ltb_spec (f j) (f (S n))); lia.
Qed.

Section CacheFacts.

Variable hash : string → Z.
Variable DATA_DIR : string.

Lemma cache_ext_cases data :
  cache_ext data = ".gif" ∨ cache_ext data = ".webp".
Proof. unfold cache_ext. destruct (String.eqb _ _); auto. Qed.

Lemma cache_fname_eq_iff a b :
  cache_fname hash a = cache_fname hash b ↔
  Z.abs (hash (url a)) = Z.abs (hash (url b)) ∧ cache_ext a = cache_ext b.
Proof.
  unfold cache_fname. split.
  - intros H. apply (inj (String.app "tmp_")) in H.
    destruct (cache_ext_cases a) as [Ea|Ea], (cache_ext_cases b) as [Eb|Eb];
      rewrite Ea, Eb in *.
    + apply string_app_inv_tail in H. split; [by apply (inj pretty) | done].
    + by apply gif_is_not_webp in H.
    + symmetry in H. by apply gif_is_not_webp in H.
    + apply string_app_inv_tail in H. split; [by apply (inj pretty) | done].
  - by intros [-> ->].
Qed.

(** C5, as amended: two items with equal url and equal kind resolve to
    the same cache file name and to the same local path, whatever bytes
    each download brought; so the same item materialized twice in one
    run gets the same path both times. *)
Theorem materialize_same_url_same_kind (a b : item) (c1 c2 : list Byte.byte) :
  url a = url b → type a = type b →
  cache_fname hash a = cache_fname hash b
  ∧ materialize hash DATA_DIR a (image_loaded c1)
    = materialize hash DATA_DIR b (image_loaded c2).
Proof.
  intros Hu Ht.
  assert (Hf : cache_fname hash a = cache_fname hash b).
  { unfold cache_fname, cache_ext. by rewrite Hu, Ht. }
  split; [done|].
  unfold materialize, load_bytes. rewrite Hu, Ht, Hf.
  destruct (String.eqb (type b) "emoji"); [done|].
  destruct (String.eqb (type b) "local"); [done|].
  by destruct c1, c2.
Qed.

(** C6, as amended: the cache file names of two items coincide exactly
    when the absolute values of the hashes of their urls coincide and
    they take the same extension; so items whose urls hash apart never
    share a file. *)
Theorem cache_fname_collides_only_on_hash (a b : item) :
  cache_fname hash a ≠ cache_fname hash b ↔
  Z.abs (hash (url a)) ≠ Z.abs (hash (url b)) ∨ cache_ext a ≠ cache_ext b.
Proof.
  rewrite cache_fname_eq_iff.
  destruct (Z.eq_dec (Z.abs (hash (url a))) (Z.abs (hash (url b)))),
           (String.string_dec (cache_ext a) (cache_ext b)); tauto.
Qed.

End CacheFacts.

Lemma materialize_same_url_same_kind_witness :
  let a := mk_item "Cat" "https://media.tenor.com/cat.gif" "gif" "Tenor" None in
  let b := mk_item "GIF" "https://media.tenor.com/cat.gif" "gif" "Tenor" None in
  cache_fname (λ s, Z.of_nat (String.length s)) a
  = cache_fname (λ s, Z.of_nat (String.length s)) b
  ∧ materialize (λ s, Z.of_nat (String.length s)) "/home/u/.local/share/bane-emote-board"
      a (image_loaded [])
    = materialize (λ s, Z.of_nat (String.length s)) "/home/u/.local/share/bane-emote-board"
      b (image_loaded []).
Proof.
  intros a b.
  apply (materialize_same_url_same_kind _ _ a b [] []); reflexivity.
Defined.

(** C5, as stated, fails: whatever the hash, a gif item and a webp item
    with the same url are resolved to different files. *)
Lemma same_url_other_kind_other_file :
  ¬ ∃ (hash : string → Z) (DATA_DIR : string),
      ∀ (a b : item) (c : list Byte.byte), url a = url b →
        materialize hash DATA_DIR a (image_loaded c)
        = materialize hash DATA_DIR b (image_loaded c).
Proof.
  intros (hash & DATA_DIR & H).
  specialize (H (mk_item "x" "https://host/x" "gif" "Tenor" None)
                (mk_item "x" "https://host/x" "webp" "7TV" None) [] eq_refl).
  unfold materialize, load_bytes, path_join, cache_fname, cache_ext in H.
  simpl in H. injection H as H.
  do 3 apply (inj (String.app _)) in H.
  by apply gif_is_not_webp in H.
Qed.

(** C6, as stated, fails: a hash takes its values in a bounded range, so
    under any hash two distinct urls get the same cache file name. *)
Lemma distinct_urls_can_share_a_file :
  ¬ ∃ (hash : string → Z) (bound : Z),
      (∀ s, Z.abs (hash s) ≤ bound) ∧
      ∀ a b : item, url a ≠ url b → cache_fname hash a ≠ cache_fname hash b.
Proof.
  intros (hash & bound & Hb & Hinj).
  destruct (pigeonhole (Z.to_nat (bound + 1)) (λ i, Z.abs (hash (a_url i))))
    as (i & j & Hij & E).
  { intros i _. specialize (Hb (a_url i)). lia. }
  apply (Hinj (mk_item "" (a_url i) "gif" "Tenor" None)
              (mk_item "" (a_url j) "gif" "Tenor" None)).
  - simpl. apply string_length_neq.
    assert (Hl : ∀ n, String.length (a_url n) = n).
    { induction n; simpl; congruence. }
    rewrite !Hl. lia.
  - apply cache_fname_eq_iff. simpl. done.
Qed.

(** ** Paging by offset *)

(** Case split on the [>=?] test of the goal. *)
Ltac case_geb :=
  match goal with |- context [?a >=? ?b] => destruct (Z.geb_spec a b) end.

Section PagingFacts.

Context {A B : Type}.
Implicit Types (all : list A) (g : A → B).

Lemma py_slice_page all (offset : Z) :
  0 ≤ offset →
  py_slice all offset (offset + BATCH_SIZE) = take 50 (drop (Z.to_nat offset) all).
Proof.
  intros Hoff. unfold py_slice, slice_bound, BATCH_SIZE.
  destruct (Z.ltb_spec offset 0) as [?|_]; [lia|].
  destruct (Z.ltb_spec (offset + 50) 0) as [?|_]; [lia|].
  destruct (Z.le_gt_cases (Z.of_nat (length all)) offset) as [Hge|Hlt].
  - rewrite !Z.min_r by lia. rewrite Nat2Z.id, Z.sub_diag. simpl.
    rewrite !drop_ge by lia. done.
  - rewrite (Z.min_l offset) by lia.
    set (rest := drop (Z.to_nat offset) all).
    assert (Hrest : length rest = (length all - Z.to_nat offset)%nat)
      by apply length_drop.
    destruct (Z.le_gt_cases (offset + 50) (Z.of_nat (length all))).
    + rewrite Z.min_l by lia. by replace (Z.to_nat (offset + 50 - offset)) with 50%nat by lia.
    + rewrite Z.min_r by lia. rewrite !take_ge; [done | lia | lia].
Qed.

Lemma page_length all (offset : Z) :
  0 ≤ offset →
  len (take 50 (drop (Z.to_nat offset) all))
  = Z.max 0 (Z.min 50 (len all - offset)).
Proof. intros. unfold len. rewrite length_take, length_drop. lia. Qed.

Lemma empty_page_is_last all (offset : Z) :
  0 ≤ offset → take 50 (drop (Z.to_nat offset) all) = [] →
  next_offset_of offset ([] : list A) all = None.
Proof.
  intros Hoff Hnil. apply (f_equal len) in Hnil.
  rewrite page_length in Hnil by done. unfold next_offset_of, len in *. simpl in *.
  case_geb; [done | lia].
Qed.

Lemma cursor_chain_serves search all g :
  serves search all g →
  ∀ (fuel : nat) (pos : option Z),
    0 ≤ offset_of pos →
    (length all - Z.to_nat (offset_of pos) < fuel)%nat →
    ∃ pages,
      cursor_chain search fuel pos = Some pages ∧
      mjoin pages = g <$> drop (Z.to_nat (offset_of pos)) all.
Proof.
  intros Hs. induction fuel as [|fuel IH]; intros pos Hoff Hfuel; [lia|].
  simpl. rewrite (Hs pos Hoff). simpl.
  set (offset := offset_of pos) in *.
  set (sliced := take 50 (drop (Z.to_nat offset) all)).
  pose proof (page_length all offset Hoff) as Hlen. fold sliced in Hlen.
  unfold next_offset_of.
  destruct (Z.geb_spec (offset + len sliced) (len all)) as [Hlast|Hmore].
  - eexists. split; [reflexivity|]. simpl. rewrite app_nil_r. f_equal.
    unfold sliced. apply take_ge. rewrite length_drop. unfold len in *. lia.
  - assert (Hfull : len sliced = 50) by (unfold len in *; lia).
    destruct (IH (Some (offset + len sliced))) as (pages & Hchain & Hjoin).
    + simpl. destruct (Z.eqb_spec (offset + len sliced) 0); lia.
    + simpl. destruct (Z.eqb_spec (offset + len sliced) 0); unfold len in *; lia.
    + rewrite Hchain. eexists. split; [reflexivity|]. simpl. rewrite Hjoin.
      simpl. destruct (Z.eqb_spec (offset + len sliced) 0) as [?|_]; [lia|].
      rewrite Hfull, <- fmap_app. f_equal.
      replace (Z.to_nat (offset + 50)) with (Z.to_nat offset + 50)%nat by lia.
      rewrite <- drop_drop. apply take_drop.
Qed.

End PagingFacts.

(** ** The emoji catalog *)

Section EmojiFacts.

Variable unicodedata_name : Z → option string.
Variable chr : Z → string.
Variable lower : string → string.
Variable title : string → string.

Lemma load_emoji_inv st code :
  catalog_inv st → catalog_inv (load_emoji unicodedata_name chr lower title st code).
Proof.
  destruct st as [all_emojis seen]. intros [Hnd Hseen]. unfold load_emoji.
  destruct (unicodedata_name code) as [n|]; [|done].
  destruct (decide (chr code ∈ seen)) as [Hin|Hout]; [done|].
  split; simpl in *.
  - rewrite fmap_app. apply NoDup_app. repeat split; [done | | apply NoDup_singleton].
    intros u Hu Hu'. apply list_elem_of_singleton in Hu'. subst. auto.
  - intros u. rewrite fmap_app, elem_of_app. simpl.
    rewrite list_elem_of_singleton, elem_of_union, elem_of_singleton.
    intros [Hu| ->]; auto.
Qed.

Lemma _load_emojis_NoDup :
  NoDup (url <$> _load_emojis unicodedata_name chr lower title).
Proof.
  unfold _load_emojis.
  assert (H : ∀ codes st, catalog_inv st →
            catalog_inv (foldl (load_emoji unicodedata_name chr lower title) st codes)).
  { induction codes as [|c codes IH]; intros st Hst; simpl; [done|].
    apply IH, load_emoji_inv, Hst. }
  apply H. split; simpl; [apply NoDup_nil_2 | intros u Hu; by apply not_elem_of_nil in Hu].
Qed.

Lemma EmojiSource_search_serves all_emojis query :
  serves (EmojiSource_search lower all_emojis query)
         (if str_truthy query
          then List.filter (emoji_matches lower (lower query)) all_emojis
          else all_emojis) id.
Proof.
  intros pos Hoff. unfold EmojiSource_search. cbv zeta.
  rewrite list_fmap_id.
  destruct (str_truthy query).
  - by rewrite py_slice_page.
  - rewrite py_slice_page by done.
    destruct (take 50 (drop (Z.to_nat (offset_of pos)) all_emojis)) eqn:Hs; [|done].
    by rewrite (empty_page_is_last all_emojis _ Hoff Hs).
Qed.

End EmojiFacts.

(** ** The local library *)

Section LocalFacts.

Variable lower : string → string.
Variable LOCAL_IMG_DIR : string.

Lemma LocalSource_search_serves files imports query :
  serves (LocalSource_search lower LOCAL_IMG_DIR (Some files) imports query)
         (List.filter (local_matches lower query) files)
         (local_item LOCAL_IMG_DIR (load_imports imports)).
Proof.
  intros pos Hoff. unfold LocalSource_search. cbv zeta.
  rewrite py_slice_page by done.
  destruct (take 50 (drop (Z.to_nat (offset_of pos)) _)) eqn:Hs; [|done].
  by rewrite (empty_page_is_last _ _ Hoff Hs).
Qed.

Lemma NoDup_List_filter {A} (f : A → bool) (l : list A) :
  NoDup l → NoDup (List.filter f l).
Proof. rewrite !NoDup_ListNoDup. apply List.NoDup_filter. Qed.

Global Instance local_item_inj imports_map :
  Inj (=) (=) (local_item LOCAL_IMG_DIR imports_map).
Proof. intros f1 f2 H. by injection H. Qed.

End LocalFacts.

(** C3: for the emoji and the local source, whatever the query, the chain
    of calls that starts without a cursor and hands each returned cursor
    to the next call ends with a call that returns no cursor, and the
    pages of the chain never repeat an item (the files of the directory
    bearing distinct names and the directory staying as it is along the
    chain). *)
Theorem finite_catalog_chains_end_without_repeats
    (unicodedata_name : Z → option string) (chr : Z → string)
    (lower title : string → string) (LOCAL_IMG_DIR : string)
    (listdir : option (list string)) (imports : imports_file) (query : string) :
  (∀ files, listdir = Some files → NoDup files) →
  (∃ fuel pages,
     cursor_chain
       (EmojiSource_search lower (_load_emojis unicodedata_name chr lower title) query)
       fuel None = Some pages
     ∧ NoDup (mjoin pages))
  ∧ (∃ fuel pages,
     cursor_chain (LocalSource_search lower LOCAL_IMG_DIR listdir imports query)
       fuel None = Some pages
     ∧ NoDup (mjoin pages)).
Proof.
  intros Hfiles. split.
  - set (all_emojis := _load_emojis unicodedata_name chr lower title).
    pose proof (EmojiSource_search_serves lower all_emojis query) as Hs.
    set (catalog := if str_truthy query then _ else _) in Hs.
    destruct (cursor_chain_serves _ _ _ Hs (S (length catalog)) None)
      as (pages & Hchain & Hjoin); [done | simpl; lia |].
    exists (S (length catalog)), pages. split; [done|].
    rewrite Hjoin, list_fmap_id. simpl.
    assert (Hnd : NoDup all_emojis).
    { eapply NoDup_fmap_1, _load_emojis_NoDup. }
    unfold catalog. destruct (str_truthy query); [by apply NoDup_List_filter | done].
  - destruct listdir as [files|].
    + pose proof (LocalSource_search_serves lower LOCAL_IMG_DIR files imports query) as Hs.
      set (all_files := List.filter _ files) in Hs.
      destruct (cursor_chain_serves _ _ _ Hs (S (length all_files)) None)
        as (pages & Hchain & Hjoin); [done | simpl; lia |].
      exists (S (length all_files)), pages. split; [done|].
      rewrite Hjoin. simpl. apply (NoDup_fmap_2 _).
      apply NoDup_List_filter, Hfiles. done.
    + exists 1%nat, [[]]. split; [done|]. simpl. apply NoDup_nil_2.
Qed.

Lemma finite_catalog_chains_end_without_repeats_witness :
  (∃ fuel pages,
     cursor_chain
       (EmojiSource_search ascii_lower
          (_load_emojis (λ _, Some "WHITE SMILING FACE") pretty ascii_lower id) "face")
       fuel None = Some pages
     ∧ NoDup (mjoin pages))
  ∧ (∃ fuel pages,
     cursor_chain
       (LocalSource_search ascii_lower "/home/u/.local/share/bane-emote-board/local_images"
          (Some ["b.png"; "Face.PNG"; "notes.txt"]) ImportsMissing "face")
       fuel None = Some pages
     ∧ NoDup (mjoin pages)).
Proof.
  apply finite_catalog_chains_end_without_repeats.
  intros files [= <-]. apply (bool_decide_unpack _). vm_compute. exact I.
Defined.

(** ** What the string tests decide *)

Section StringTests.

Lemma prefix_spec q s : String.prefix q s = true ↔ ∃ post, s = q +:+ post.
Proof.
  revert s. induction q as [|c q IH]; intros [|d s]; simpl.
  - split; [intros _; by exists "" | done].
  - split; [intros _; by exists (String d s) | done].
  - split; [done | by intros [post ?]].
  - destruct (ascii_dec c d) as [<-|Hne].
    + rewrite IH. split; intros [post H]; exists post.
      * by rewrite H.
      * by injection H.
    + split; [done|]. intros [post H]. injection H as H1 H2. congruence.
Qed.

Lemma str_in_cons q c s :
  str_in q (String c s) = String.prefix q (String c s) || str_in q s.
Proof. reflexivity. Qed.

Lemma str_in_spec q s : str_in q s = true ↔ ∃ pre post, s = pre +:+ q +:+ post.
Proof.
  induction s as [|c s IH].
  - change (str_in q "") with (String.prefix q "" || false).
    rewrite orb_false_r, prefix_spec. split.
    + intros [post H]. by exists "", post.
    + intros (pre & post & H). destruct pre; [by exists post | done].
  - rewrite str_in_cons, orb_true_iff, prefix_spec, IH. split.
    + intros [[post H]|(pre & post & H)].
      * by exists "", post.
      * exists (String c pre), post. by rewrite H.
    + intros (pre & post & H). destruct pre as [|d pre].
      * left. by exists post.
      * right. injection H as _ H. by exists pre, post.
Qed.

Lemma endswith_cons c s suf :
  endswith (String c s) suf = String.eqb (String c s) suf || endswith s suf.
Proof. reflexivity. Qed.

Lemma endswith_spec s suf : endswith s suf = true ↔ ∃ pre, s = pre +:+ suf.
Proof.
  induction s as [|c s IH].
  - change (endswith "" suf) with (String.eqb "" suf || false).
    rewrite orb_false_r, String.eqb_eq. split.
    + intros <-. by exists "".
    + intros [pre H]. by destruct pre, suf.
  - rewrite endswith_cons, orb_true_iff, String.eqb_eq, IH. split.
    + intros [<-|[pre H]]; [by exists "" |]. exists (String c pre). by rewrite H.
    + intros [pre H]. destruct pre as [|d pre]; [by left|].
      right. injection H as _ H. by exists pre.
Qed.

Lemma str_truthy_false s : str_truthy s = false ↔ s = "".
Proof. unfold str_truthy. rewrite negb_false_iff. apply String.eqb_eq. Qed.

End StringTests.

(** ** Pages of the local library *)

Section LocalPages.

Variable lower : string → string.
Variable LOCAL_IMG_DIR : string.

(** A file is listed when its lowered name ends in an image extension and,
    for a non-empty query, contains the lowered query. *)
Lemma local_matches_spec query f :
  local_matches lower query f = true ↔
  (∃ ext, ext ∈ image_exts ∧ ∃ pre, lower f = pre +:+ ext)
  ∧ (query = "" ∨ ∃ pre post, lower f = pre +:+ lower query +:+ post).
Proof.
  unfold local_matches, endswith_any.
  rewrite andb_true_iff, orb_true_iff, negb_true_iff, str_truthy_false,
    str_in_spec, existsb_exists.
  apply and_iff_compat_r. split.
  - intros (ext & Hin & He). exists ext.
    by rewrite list_elem_of_In, <- endswith_spec.
  - intros (ext & Hin & He). exists ext.
    by rewrite <- list_elem_of_In, endswith_spec.
Qed.

(** C9, as amended: the cursor of the local source is an offset into the
    directory listing, taken in the order the operating system returns it
    and restricted to the image files whose name contains the query
    whatever the case (all image files for the empty query); a call
    returns the next 50 of them, and it returns no cursor exactly when the
    offset plus the length of the page reaches their count.  Three
    matching files come back at once, without a cursor. *)
Theorem LocalSource_search_pages_the_listing
    (listdir : option (list string)) (imports : imports_file)
    (query : string) (pos : option Z) :
  0 ≤ offset_of pos →
  let files := default [] listdir in
  let matching := List.filter (local_matches lower query) files in
  let offset := offset_of pos in
  let result := LocalSource_search lower LOCAL_IMG_DIR listdir imports query pos in
  (∀ f, f ∈ matching ↔
        f ∈ files
        ∧ (∃ ext, ext ∈ image_exts ∧ ∃ pre, lower f = pre +:+ ext)
        ∧ (query = "" ∨ ∃ pre post, lower f = pre +:+ lower query +:+ post))
  ∧ result.1 = local_item LOCAL_IMG_DIR (load_imports imports)
                 <$> take 50 (drop (Z.to_nat offset) matching)
  ∧ (result.2 = None ↔ len matching ≤ offset + len result.1)
  ∧ (∀ next, result.2 = Some next → next = offset + len result.1)
  ∧ (pos = None → length matching = 3%nat →
     name <$> result.1 = matching ∧ result.2 = None).
Proof.
  intros Hoff files matching offset result.
  assert (Hres : result =
    (local_item LOCAL_IMG_DIR (load_imports imports)
       <$> take 50 (drop (Z.to_nat offset) matching),
     next_offset_of offset (take 50 (drop (Z.to_nat offset) matching)) matching)).
  { unfold result, matching, files. destruct listdir as [fs|]; simpl.
    - apply (LocalSource_search_serves lower LOCAL_IMG_DIR fs imports query pos Hoff).
    - rewrite drop_nil. simpl. unfold next_offset_of, len. simpl. fold offset.
      case_geb; [done | lia]. }
  split; [|rewrite Hres; simpl; split; [done|split; [|split]]].
  - intros f. unfold matching.
    by rewrite list_elem_of_In, filter_In, <- list_elem_of_In, local_matches_spec.
  - unfold next_offset_of, len. rewrite length_fmap.
    case_geb.
    + split; [lia | done].
    + split; [done | lia].
  - intros next. unfold next_offset_of, len. rewrite length_fmap.
    case_geb;
      congruence.
  - intros -> H3. unfold offset. simpl.
    change (Z.to_nat 0) with O. rewrite drop_0, take_ge by lia. split.
    + rewrite <- list_fmap_compose. apply list_fmap_id.
    + unfold next_offset_of, len. rewrite H3. done.
Qed.

End LocalPages.

Lemma LocalSource_search_pages_the_listing_witness :
  let result :=
    LocalSource_search ascii_lower "/home/u/.local/share/bane-emote-board/local_images"
      (Some ["b.png"; "Cat.GIF"; "notes.txt"; "a.jpeg"]) ImportsMissing "" None in
  name <$> result.1 = ["b.png"; "Cat.GIF"; "a.jpeg"] ∧ result.2 = None.
Proof.
  intros result.
  refine (proj2 (proj2 (proj2 (proj2
    (LocalSource_search_pages_the_listing ascii_lower _ _ ImportsMissing "" None _))))
    eq_refl _).
  - simpl. lia.
  - reflexivity.
Defined.

(** C9, as stated, fails on the order: the page follows the directory
    listing as it comes, which need not be sorted. *)
Lemma local_listing_is_not_sorted :
  ¬ ∀ (files : list string) (query : string) (pos : option Z),
      StronglySorted String.le
        (name <$> (LocalSource_search ascii_lower "/d" (Some files)
                     ImportsMissing query pos).1).
Proof.
  intros H. specialize (H ["b.png"; "a.png"] "" None).
  vm_compute in H. inversion H as [|? ? _ Hall]. inversion Hall as [|? ? Hle _].
  exact Hle.
Qed.

(** ** Failures of the GIF search *)

Section TenorFacts.

Variable requests_get : string → list (string * pyval) → http_result.
Variable strip : string → string.

(** C4: whatever the query and the cursor, when the request of the GIF
    source raises or comes back with a status other than 200, [search]
    returns the empty list with no cursor; the failure is a returned
    value, nothing is raised to the caller. *)
Theorem TenorSource_search_soft_failure
    (cfg : config_file) (query : string) (pos : pyval) :
  let api_key := default (PStr DEFAULT_TENOR_KEY) (load_config cfg !! "tenor_key") in
  let request := tenor_request api_key query pos in
  http_failed (requests_get request.1 request.2) →
  TenorSource_search requests_get strip cfg query pos = ([], PNone).
Proof.
  intros api_key request. unfold TenorSource_search.
  change (from_option id (PStr DEFAULT_TENOR_KEY) (load_config cfg !! "tenor_key"))
    with api_key.
  fold request. destruct request as [u params]. simpl.
  destruct (requests_get u params) as [|status_code json]; simpl; [done|].
  intros Hne. by destruct (Z.eqb_spec status_code 200).
Qed.

End TenorFacts.

Lemma TenorSource_search_soft_failure_witness :
  TenorSource_search (λ _ _, http_response 500 None) id ConfigMissing "cat" PNone
  = ([], PNone).
Proof.
  apply (TenorSource_search_soft_failure (λ _ _, http_response 500 None) id).
  simpl. lia.
Defined.

(** ** The scroll driver *)

Section DriverFacts.

Lemma shown_items_app ws results :
  omap (λ w, match w with ImageCard d => Some d | QLabel _ => None end)
       (ws ++ (ImageCard <$> results))
  = omap (λ w, match w with ImageCard d => Some d | QLabel _ => None end) ws
    ++ results.
Proof.
  rewrite omap_app. f_equal. induction results as [|r rs IH]; csimpl; [done|].
  by rewrite IH.
Qed.

Lemma load_more_serialized app :
  in_flight app = [] → serialized (load_more app).
Proof. intros H. right. simpl. by rewrite H. Qed.

Lemma step_serialized app e :
  same_session e = true → serialized app → serialized (step app e).
Proof.
  intros He Hs. destruct e as [?|value maximum|value maximum|i results next_pos|i];
    simpl in *; [done| | | |].
  - unfold check_scroll. destruct (over_threshold value maximum); [|done].
    destruct (is_loading app) eqn:Hl; simpl; [done|].
    destruct (truthy (next_ptr app)); [|done].
    apply load_more_serialized. destruct Hs as [?|[? _]]; [done | congruence].
  - unfold fill_screen_if_needed. destruct (is_loading app) eqn:Hl; simpl; [done|].
    destruct (truthy (next_ptr app)); simpl; [|done].
    destruct ((maximum <=? 0) || (10 * value >=? 9 * maximum)); [|done].
    apply load_more_serialized. destruct Hs as [?|[? _]]; [done | congruence].
  - destruct (in_flight app !! i) as [w|] eqn:Hw; [|done].
    left. simpl. destruct Hs as [Hs|[_ Hs]].
    + rewrite Hs in Hw. done.
    + destruct (in_flight app) as [|w0 [|]]; simplify_eq/=.
      destruct i; simplify_eq/=. done.
  - destruct Hs as [Hs|[Hl Hs]]; [left; simpl; by rewrite Hs|].
    destruct (in_flight app) as [|w0 [|]] eqn:Hf; simplify_eq/=.
    destruct i; [left | right]; simpl; auto.
Qed.

Lemma run_serialized events app :
  forallb same_session events = true → serialized app → serialized (run events app).
Proof.
  unfold run. revert app. induction events as [|e events IH]; intros app He Hs;
    simpl in *; [done|].
  apply andb_true_iff in He as [He Hes]. by apply IH, step_serialized.
Qed.

(** C1, as amended: while the loading flag is up, or the cursor is empty,
    a scroll past the threshold and a fill-to-viewport continuation both
    leave the driver as it is and start no fetch; so throughout a session
    whose search was started while no fetch was in flight, through any
    scrolls, timers and arrivals, at most one page fetch is outstanding,
    and the flag is up whenever one is. *)
Theorem one_page_fetch_at_a_time
    (app : App) (source_name query : string) (events : list event) :
  in_flight app = [] →
  forallb same_session events = true →
  let st := run events (search source_name query app) in
  (∀ (a : App) (value maximum : Z),
      is_loading a = true ∨ truthy (next_ptr a) = false →
      check_scroll value maximum a = a
      ∧ fill_screen_if_needed value maximum a = a)
  ∧ (length (in_flight st) ≤ 1)%nat
  ∧ (length (current_fetches st) ≤ 1)%nat
  ∧ (in_flight st ≠ [] → is_loading st = true).
Proof.
  intros Hq He st. split; [|].
  - intros a value maximum Ha. unfold check_scroll, fill_screen_if_needed.
    destruct Ha as [-> | ->]; simpl.
    + by destruct (over_threshold value maximum).
    + rewrite andb_false_r, orb_true_r. by destruct (over_threshold value maximum).
  - assert (Hs : serialized st).
    { apply run_serialized; [done|]. unfold search.
      by apply load_more_serialized. }
    assert (Hc : (length (current_fetches st) ≤ length (in_flight st))%nat)
      by apply List.filter_length_le.
    destruct Hs as [Hs|[Hl Hs]].
    + rewrite Hs in *. simpl in *. repeat split; [lia | lia | done].
    + repeat split; [lia | lia | done].
Qed.

Lemma one_page_fetch_at_a_time_witness :
  let smile := mk_item "Grinning Face" "😀" "emoji" "Emoji" None in
  let st := run [Scroll 95 100; FillTimer 0 0; Results 0 [smile] (PInt 50);
                 Scroll 95 100; FillTimer 0 0]
                (search "Emojis" "" App_init) in
  (∀ (a : App) (value maximum : Z),
      is_loading a = true ∨ truthy (next_ptr a) = false →
      check_scroll value maximum a = a
      ∧ fill_screen_if_needed value maximum a = a)
  ∧ (length (in_flight st) ≤ 1)%nat
  ∧ (length (current_fetches st) ≤ 1)%nat
  ∧ (in_flight st ≠ [] → is_loading st = true).
Proof.
  intros smile.
  apply (one_page_fetch_at_a_time App_init "Emojis" ""); reflexivity.
Defined.

(** C1, as stated, fails: a search started while the fetch of the previous
    one is in flight does not wait for it; when that page arrives the flag
    drops and the cursor is set, and the fill-to-viewport timer starts a
    second fetch of the new search next to its first one. *)
Lemma second_fetch_after_a_late_page :
  ¬ ∀ events : list event,
      (length (current_fetches (run events App_init)) ≤ 1)%nat.
Proof.
  intros H.
  specialize (H [Search "Tenor" "cat"; Search "Emojis" "smile";
                 Results 0 [mk_item "Cat" "https://media.tenor.com/cat.gif"
                                    "gif" "Tenor" None] (PStr "16");
                 FillTimer 0 0]).
  vm_compute in H. lia.
Qed.

(** [display_results] has no case for a page that comes late: in every
    state, with or without cards on display, the page a running worker
    delivers is appended and its cursor taken. *)
Lemma results_are_appended (st : App) (i : nat) (w : SearchWorker)
    (results : list item) (next_pos : pyval) :
  in_flight st !! i = Some w →
  let arrived := step st (Results i results next_pos) in
  next_ptr arrived = next_pos
  ∧ shown_items arrived = shown_items st ++ results
  ∧ is_loading arrived = false
  ∧ in_flight arrived = delete i (in_flight st)
  ∧ current_query arrived = current_query st
  ∧ current_source_name arrived = current_source_name st
  ∧ session arrived = session st.
Proof.
  intros Hw arrived. unfold arrived. simpl. rewrite Hw. simpl.
  repeat split. unfold shown_items. simpl.
  destruct results as [|r rs].
  - destruct (search_card_widgets st); simpl; by rewrite ?app_nil_r.
  - apply (shown_items_app (search_card_widgets st) (r :: rs)).
Qed.

(** C2, as amended: a new search empties the result list, resets the
    cursor and starts the first fetch of the new query, and leaves the
    fetch of the previous search in flight; no arriving page is checked
    against the current search: at any later moment [st], whatever has been
    fetched, shown or searched in between, whichever running worker
    delivers, of this search or of an earlier one, its cursor becomes the
    cursor, the loading flag drops and its items are appended to the cards
    already on display; query, source and search number stay those of the
    current search. *)
Theorem late_page_is_applied_to_the_new_search
    (app : App) (source_name query : string) (events : list event)
    (i : nat) (w : SearchWorker) (results : list item) (next_pos : pyval) :
  let started := search source_name query app in
  let st := run events started in
  let arrived := step st (Results i results next_pos) in
  in_flight st !! i = Some w →
  (next_ptr started = PNone ∧ search_card_widgets started = []
   ∧ shown_items started = []
   ∧ is_loading started = true
   ∧ in_flight started
     = in_flight app ++ [ {| w_source := source_name; w_query := query;
                             w_pos := PNone; w_session := S (session app) |} ])
  ∧ next_ptr arrived = next_pos
  ∧ shown_items arrived = shown_items st ++ results
  ∧ is_loading arrived = false
  ∧ in_flight arrived = delete i (in_flight st)
  ∧ current_query arrived = current_query st
  ∧ current_source_name arrived = current_source_name st
  ∧ session arrived = session st.
Proof.
  intros started st arrived Hw. split; [done|].
  exact (results_are_appended st i w results next_pos Hw).
Qed.

End DriverFacts.

Lemma late_page_is_applied_to_the_new_search_witness :
  let cat := mk_item "Cat" "https://media.tenor.com/cat.gif" "gif" "Tenor" None in
  let smile := mk_item "Grinning Face" "😀" "emoji" "Emoji" None in
  let st := run [Results 1 [smile] PNone]
                (search "Emojis" "smile" (search "Tenor" "cat" App_init)) in
  let arrived := step st (Results 0 [cat] (PStr "16")) in
  stale st 0
  ∧ shown_items st = [smile]
  ∧ next_ptr arrived = PStr "16"
  ∧ shown_items arrived = [smile; cat]
  ∧ current_source_name arrived = "Emojis".
Proof.
  intros cat smile st arrived.
  pose proof (late_page_is_applied_to_the_new_search
                (search "Tenor" "cat" App_init) "Emojis" "smile"
                [Results 1 [smile] PNone] 0
                {| w_source := "Tenor"; w_query := "cat"; w_pos := PNone;
                   w_session := 1 |} [cat] (PStr "16") eq_refl)
    as (_ & Hptr & Hshown & _).
  split; [|split; [reflexivity | split; [exact Hptr | split; [exact Hshown | reflexivity]]]].
  eexists. split; [reflexivity | simpl; lia].
Defined.

(** C2, as stated, fails: the page of the search that was replaced is
    shown under the new search and its cursor becomes the cursor. *)
Lemma stale_page_is_not_discarded :
  ¬ ∀ (events : list event) (i : nat) (results : list item) (next_pos : pyval),
      let app := run events App_init in
      let arrived := step app (Results i results next_pos) in
      stale app i →
      shown_items arrived = shown_items app ∧ next_ptr arrived = next_ptr app.
Proof.
  intros H.
  destruct (H [Search "Tenor" "cat"; Search "Emojis" "smile"] O
              [mk_item "Cat" "https://media.tenor.com/cat.gif" "gif" "Tenor" None]
              (PStr "16")) as [Hshown Hptr].
  - eexists. split; [reflexivity | simpl; lia].
  - discriminate Hptr.
Qed.

(** ** The definitions at work *)

Section Examples.

Let cat := mk_item "Cat" "https://media.tenor.com/cat.gif" "gif" "Tenor" None.
Let pepe := mk_item "Pepe" "https://cdn.7tv.app/emote/1/2x.webp" "webp" "7TV" None.

(** A catalog of 120 entries, named by their code points. *)
Let catalog :=
  (λ c, mk_item (pretty c) (pretty c) "emoji" "Emoji" None)
    <$> code_range (0x1F600, 0x1F677).

Example toggle_fav_adds : toggle_fav cat (FavsList [pepe]) = (FavsList [pepe; cat], true).
Proof. reflexivity. Qed.

Example toggle_fav_removes : toggle_fav pepe (FavsList [pepe; cat]) = (FavsList [cat], false).
Proof. reflexivity. Qed.

Example toggle_fav_without_file : toggle_fav cat FavsCorrupt = (FavsList [cat], true).
Proof. reflexivity. Qed.

Example cache_fname_of_cat :
  cache_fname (λ s, - Z.of_nat (String.length s)) cat = "tmp_31.gif".
Proof. reflexivity. Qed.

Example py_slice_from_the_end : py_slice [1; 2; 3; 4; 5] (-3) 47 = [3; 4; 5].
Proof. reflexivity. Qed.

Example emoji_first_two_pages :
  let first := EmojiSource_search ascii_lower catalog "" None in
  let second := EmojiSource_search ascii_lower catalog "" first.2 in
  length first.1 = 50%nat ∧ first.2 = Some 50
  ∧ length second.1 = 50%nat ∧ second.2 = Some 100
  ∧ first.1 ++ second.1 = take 100 catalog.
Proof. vm_compute. done. Qed.

Example emoji_last_page :
  let last := EmojiSource_search ascii_lower catalog "" (Some 100) in
  length last.1 = 20%nat ∧ last.2 = None.
Proof. vm_compute. done. Qed.

Example emoji_query_page :
  (λ r, (name <$> r.1, r.2)) (EmojiSource_search ascii_lower catalog "12851" None)
  = (["128512"; "128513"; "128514"; "128515"; "128516"; "128517"; "128518";
      "128519"], None).
Proof. vm_compute. done. Qed.

(** A code point without a name is left out, a character already seen is
    not added again. *)
Example load_emoji_skips :
  name <$> (foldl (load_emoji (λ c, if c =? 2 then None else Some "GRINNING FACE")
                              (λ c, pretty (c mod 3)) ascii_lower id)
                  ([], ∅) [0; 1; 2; 3; 4]).1
  = ["grinning face"; "grinning face"].
Proof. vm_compute. done. Qed.

Example local_first_page :
  LocalSource_search ascii_lower "/d" (Some ["b.png"; "Face.PNG"; "notes.txt"])
    (ImportsMap {[ "b.png" := "https://host/b.png" ]}) "" None
  = ([ mk_item "b.png" "/d/b.png" "local" "Local" (Some "https://host/b.png");
       mk_item "Face.PNG" "/d/Face.PNG" "local" "Local" None ], None).
Proof. vm_compute. done. Qed.

(** A page of the GIF search: the second entry has no media and is
    skipped, the third is not a dict and ends the loop. *)
Example tenor_page :
  TenorSource_search
    (λ _ _, http_response 200 (Some (PDict
       [ ("next", PStr "16");
         ("results", PList
            [ PDict [ ("media", PList [PDict [("tinygif", PDict [("url", PStr "https://t/c.gif")])]]);
                      ("title", PStr "cat") ];
              PDict [ ("title", PStr "x") ];
              PInt 3;
              PDict [ ("media_formats", PDict [("gif", PDict [("url", PStr "https://t/d.gif")])]) ] ]) ])))
    id ConfigMissing "cat" PNone
  = ([ PDict [ ("name", PStr "cat"); ("url", PStr "https://t/c.gif");
               ("type", PStr "gif"); ("source", PStr "Tenor") ] ],
     PStr "16").
Proof. vm_compute. done. Qed.

(** [if gif_url:] does not ask for a [str]: an entry whose url is a number
    other than zero is appended with that number, one whose url is zero or
    the empty string is left out, and a [gif_obj] that is a truthy number
    makes [gif_obj['url']] raise. *)
Example tenor_page_odd_urls :
  TenorSource_search
    (λ _ _, http_response 200 (Some (PDict
       [ ("next_pos", PInt 2);
         ("results", PList
            [ PDict [ ("media_formats", PDict [("tinygif", PDict [("url", PInt 5)])]) ];
              PDict [ ("media_formats", PDict [("gif", PDict [("url", PInt 0)])]) ];
              PDict [ ("media_formats", PDict [("gif", PDict [("url", PStr "")])]);
                      ("content_description", PStr "x") ];
              PDict [ ("media", PList [PDict [("gif", PDict [("url", PList [PNone])])]]);
                      ("content_description", PStr "dog") ];
              PDict [ ("media_formats", PDict [("tinygif", PInt 7)]) ];
              PDict [ ("media_formats", PDict [("gif", PDict [("url", PStr "https://t/d.gif")])]) ] ]) ])))
    id ConfigMissing "cat" PNone
  = ([ PDict [ ("name", PStr "GIF"); ("url", PInt 5);
               ("type", PStr "gif"); ("source", PStr "Tenor") ];
       PDict [ ("name", PStr "dog"); ("url", PList [PNone]);
               ("type", PStr "gif"); ("source", PStr "Tenor") ] ],
     PInt 2).
Proof. vm_compute. done. Qed.

Example tenor_second_dialect :
  tenor_request (PStr "mykey") "cat" (PStr "16")
  = ("https://tenor.googleapis.com/v2/search",
     [ ("q", PStr "cat"); ("key", PStr "mykey"); ("client_key", PStr "bane_board_v1");
       ("limit", PInt 50); ("media_filter", PStr "minimal"); ("pos", PStr "16") ]).
Proof. reflexivity. Qed.

End Examples.

(** * Further properties of the code *)

(** ** The star and the favorites tab *)

Section FavoritesTabFacts.

Variable lower : string → string.

Lemma is_favorited_spec data f :
  is_favorited data f = true ↔ url data ∈ fav_urls f.
Proof.
  unfold is_favorited, fav_urls. rewrite existsb_exists, list_elem_of_fmap.
  split.
  - intros (x & Hx & E). apply String.eqb_eq in E. exists x.
    by rewrite list_elem_of_In.
  - intros (x & E & Hx). exists x. rewrite <- list_elem_of_In.
    split; [done | by apply String.eqb_eq].
Qed.

Lemma is_favorited_false data f :
  is_favorited data f = false ↔ url data ∉ fav_urls f.
Proof.
  rewrite <- is_favorited_spec. destruct (is_favorited data f); split; done.
Qed.

(** X1: the flag [toggle_fav] hands to the star is the opposite of
    [is_favorited] before the toggle and, on a file without duplicate
    urls, equal to [is_favorited] after it; the star of an item with
    another url is not affected. *)
Theorem toggle_fav_flips_the_star (data other : item) (f : favs_file) :
  NoDup (fav_urls f) →
  let r := toggle_fav data f in
  r.2 = negb (is_favorited data f)
  ∧ is_favorited data r.1 = r.2
  ∧ (url other ≠ url data → is_favorited other r.1 = is_favorited other f).
Proof.
  intros Hnd. unfold toggle_fav. cbv zeta.
  destruct (pop_first_match (url data) (load_favs f)) as [favs'|] eqn:Hp; simpl.
  - apply pop_first_match_Some in Hp as (l1 & x & l2 & Hl & Hx & Hn1 & ->).
    unfold fav_urls in Hnd. rewrite Hl, fmap_app, fmap_cons in Hnd.
    apply NoDup_app in Hnd as (_ & H12 & H2). apply NoDup_cons in H2 as [Hn2 _].
    assert (Hin : is_favorited data f = true).
    { apply is_favorited_spec. unfold fav_urls.
      rewrite Hl, fmap_app, fmap_cons, elem_of_app, elem_of_cons. auto. }
    rewrite Hin. split; [done|]. split.
    + apply is_favorited_false. unfold fav_urls. simpl.
      rewrite Hx in Hn2. rewrite fmap_app, elem_of_app. tauto.
    + intros Hne. apply eq_true_iff_eq. rewrite !is_favorited_spec.
      unfold fav_urls. simpl.
      rewrite Hl, !fmap_app, fmap_cons, !elem_of_app, elem_of_cons.
      split; [tauto|]. intros [?|[E|?]]; auto. congruence.
  - apply pop_first_match_None in Hp as Hn.
    assert (Hout : is_favorited data f = false) by by apply is_favorited_false.
    rewrite Hout. split; [done|]. split.
    + apply is_favorited_spec. unfold fav_urls. simpl.
      rewrite fmap_app, elem_of_app. right. by left.
    + intros Hne. apply eq_true_iff_eq. rewrite !is_favorited_spec.
      unfold fav_urls. simpl. rewrite fmap_app, elem_of_app. simpl.
      rewrite list_elem_of_singleton. tauto.
Qed.

Lemma cards_of_cards (l : list item) : cards (ImageCard <$> l) = l.
Proof. unfold cards. induction l as [|x l IH]; csimpl; [done | by rewrite IH]. Qed.

Lemma sublist_List_filter {A} (f : A → bool) (l : list A) :
  List.filter f l `sublist_of` l.
Proof.
  induction l as [|x l IH]; simpl; [done|].
  destruct (f x); [by apply sublist_skip | by apply sublist_cons].
Qed.

Lemma List_filter_all {A} (f : A → bool) (l : list A) :
  (∀ x, f x = true) → List.filter f l = l.
Proof. intros H. induction l as [|x l IH]; simpl; [done|]. by rewrite H, IH. Qed.

(** X2: the favorites tab shows, whatever the filter text, favorites of
    the file in the order of the file, each of which contains the lowered
    text in its lowered name or url; with an empty filter it shows them
    all. *)
Theorem load_favorites_shows_the_matching_favorites (text : string) (f : favs_file) :
  lower "" = "" →
  cards (load_favorites lower "" f) = load_favs f
  ∧ cards (load_favorites lower text f) `sublist_of` load_favs f
  ∧ ∀ it, it ∈ cards (load_favorites lower text f) →
      lower text = ""
      ∨ (∃ pre post, lower (name it) = pre +:+ lower text +:+ post)
      ∨ (∃ pre post, lower (url it) = pre +:+ lower text +:+ post).
Proof.
  intros Hl.
  assert (Hcards : ∀ t, cards (load_favorites lower t f)
                        = match f with
                          | FavsList favs => List.filter (fav_matches lower (lower t)) favs
                          | _ => []
                          end).
  { intros t. unfold load_favorites. destruct f as [| |favs]; [done..|].
    destruct (List.filter _ favs) as [|x l] eqn:E; [done|].
    apply cards_of_cards. }
  rewrite !Hcards. destruct f as [| |favs]; simpl.
  - repeat split; [done|]. intros it H. by apply not_elem_of_nil in H.
  - repeat split; [done|]. intros it H. by apply not_elem_of_nil in H.
  - split; [|split].
    + apply List_filter_all. intros x. unfold fav_matches. by rewrite Hl.
    + apply sublist_List_filter.
    + intros it. rewrite list_elem_of_In, filter_In. intros [_ Hm].
      unfold fav_matches in Hm.
      rewrite !orb_true_iff, negb_true_iff, str_truthy_false, !str_in_spec in Hm.
      tauto.
Qed.

End FavoritesTabFacts.

Lemma toggle_fav_flips_the_star_witness :
  let cat := mk_item "Cat" "https://media.tenor.com/cat.gif" "gif" "Tenor" None in
  let pepe := mk_item "Pepe" "https://cdn.7tv.app/emote/1/2x.webp" "webp" "7TV" None in
  let r := toggle_fav cat (FavsList [pepe; cat]) in
  r.2 = negb (is_favorited cat (FavsList [pepe; cat]))
  ∧ is_favorited cat r.1 = r.2
  ∧ (url pepe ≠ url cat →
     is_favorited pepe r.1 = is_favorited pepe (FavsList [pepe; cat])).
Proof.
  intros cat pepe.
  apply (toggle_fav_flips_the_star cat pepe (FavsList [pepe; cat])).
  apply (bool_decide_unpack _). vm_compute. exact I.
Defined.

Lemma load_favorites_shows_the_matching_favorites_witness :
  let cat := mk_item "Cat" "https://media.tenor.com/cat.gif" "gif" "Tenor" None in
  let pepe := mk_item "Pepe" "https://cdn.7tv.app/emote/1/2x.webp" "webp" "7TV" None in
  cards (load_favorites ascii_lower "" (FavsList [pepe; cat])) = [pepe; cat]
  ∧ cards (load_favorites ascii_lower "TENOR" (FavsList [pepe; cat]))
      `sublist_of` [pepe; cat].
Proof.
  intros cat pepe.
  pose proof (load_favorites_shows_the_matching_favorites ascii_lower "TENOR"
                (FavsList [pepe; cat]) eq_refl) as (H1 & H2 & _).
  exact (conj H1 H2).
Defined.

(** ** What the sweep removes and what the cards write *)

Section SweepFacts.

Variable unlink_ok : string → bool.

(** X3: [cleanup_temp_files] removes exactly the entries of the data
    directory whose name starts with [tmp_] and whose deletion succeeds: a
    failed deletion does not stop the sweep, and no other entry
    ([favorites.json], [config.json], [local_images], ...) is ever
    removed. *)
Theorem cleanup_temp_files_removes_exactly (entries : gset string) :
  ∃ entries',
    cleanup_temp_files unlink_ok (Some entries) = Some entries' ∧
    ∀ p, p ∈ entries' ↔
         p ∈ entries ∧ ¬ (String.prefix "tmp_" p = true ∧ unlink_ok p = true).
Proof.
  eexists. split; [reflexivity|]. intros p.
  rewrite elem_of_unlink_all, elem_of_glob_tmp. tauto.
Qed.

Variable hash : string → Z.
Variable DATA_DIR : string.

Lemma cache_fname_is_tmp data : String.prefix "tmp_" (cache_fname hash data) = true.
Proof. apply prefix_spec. by eexists. Qed.

(** X4: a card writes a file only after a download that answered 200
    with a non-empty body; the file then lies in the data directory under
    the item's cache name, which starts with [tmp_], so the sweep deletes
    it whenever its deletion succeeds.  Emoji and local items, failed
    downloads and empty bodies write nothing. *)
Theorem card_write_is_swept (data : item) (r : get_result)
    (path : string) (content : list Byte.byte) (entries : gset string) :
  card_write hash DATA_DIR data (ImageDownloadWorker_run r) = Some (path, content) →
  r = get_response 200 content
  ∧ content ≠ []
  ∧ type data ≠ "emoji" ∧ type data ≠ "local"
  ∧ path = path_join DATA_DIR (cache_fname hash data)
  ∧ (unlink_ok (cache_fname hash data) = true →
     ∃ entries',
       cleanup_temp_files unlink_ok (Some ({[cache_fname hash data]} ∪ entries))
       = Some entries'
       ∧ cache_fname hash data ∉ entries').
Proof.
  unfold card_write, load_bytes.
  destruct (String.eqb_spec (type data) "emoji") as [|Hemoji]; [done|].
  destruct (String.eqb_spec (type data) "local") as [|Hlocal].
  { destruct (str_truthy (url data)); done. }
  destruct r as [msg|status_code body]; simpl; [done|].
  destruct (Z.eqb_spec status_code 200) as [->|]; [|done].
  destruct body as [|b bs]; simpl; [done|].
  intros [= <- <-]. repeat split; try done.
  intros Hok. eexists. split; [reflexivity|].
  rewrite elem_of_unlink_all, elem_of_glob_tmp.
  intros [_ Hn]. apply Hn. split; [|done].
  split; [apply elem_of_union_l, elem_of_singleton; done | apply cache_fname_is_tmp].
Qed.

End SweepFacts.

Lemma card_write_is_swept_witness :
  let cat := mk_item "Cat" "https://media.tenor.com/cat.gif" "gif" "Tenor" None in
  let hash := λ s, - Z.of_nat (String.length s) in
  get_response 200 [Byte.x47] = get_response 200 [Byte.x47]
  ∧ [Byte.x47] ≠ []
  ∧ type cat ≠ "emoji" ∧ type cat ≠ "local"
  ∧ "/data/tmp_31.gif" = path_join "/data" (cache_fname hash cat)
  ∧ (true = true →
     ∃ entries',
       cleanup_temp_files (λ _, true)
         (Some ({[cache_fname hash cat]} ∪ {[ "favorites.json" ]})) = Some entries'
       ∧ cache_fname hash cat ∉ entries').
Proof.
  intros cat hash.
  apply (card_write_is_swept (λ _, true) hash "/data" cat
           (get_response 200 [Byte.x47]) "/data/tmp_31.gif" [Byte.x47]
           {[ "favorites.json" ]}).
  reflexivity.
Defined.

(** ** The grid *)

Section GridFacts.

Lemma reflow_cols_pos width : 1 ≤ reflow_cols width.
Proof. unfold reflow_cols. lia. Qed.

(** X5: for a viewport at least 200 wide, [reflow_grids] takes as many
    columns as fit with the minimal spacing and a spacing of at least
    [MIN_SPACING] with which the columns and their gaps still fit, leaving
    less than one pixel per gap unused; and whatever the width, widget
    [i] goes to the cell whose row-major index is [i], in a column below
    [cols], so no two widgets share a cell. *)
Theorem reflow_grids_fits (width : Z) (i j : nat) :
  200 ≤ width →
  let cols := reflow_cols width in
  let spacing := reflow_spacing width in
  1 ≤ cols ∧ MIN_SPACING ≤ spacing
  ∧ cols * CARD_WIDTH + (cols + 1) * spacing ≤ width
  ∧ width < cols * CARD_WIDTH + (cols + 1) * (spacing + 1)
  ∧ width < (cols + 1) * CARD_WIDTH + (cols + 2) * MIN_SPACING
  ∧ (grid_cell cols i).1 * cols + (grid_cell cols i).2 = Z.of_nat i
  ∧ 0 ≤ (grid_cell cols i).2 < cols
  ∧ (grid_cell cols i = grid_cell cols j → i = j).
Proof.
  intros Hw cols spacing.
  assert (Hcols : cols = (width - 10) / 190).
  { unfold cols, reflow_cols, MIN_SPACING, CARD_WIDTH.
    change (180 + 10) with 190.
    assert (1 ≤ (width - 10) / 190) by (apply Z.div_le_lower_bound; lia). lia. }
  assert (Hc1 : 1 ≤ cols) by apply reflow_cols_pos.
  assert (Hdiv : 190 * cols ≤ width - 10 < 190 * cols + 190).
  { rewrite Hcols. pose proof (Z.mul_div_le (width - 10) 190).
    pose proof (Z.mul_succ_div_gt (width - 10) 190). lia. }
  set (remaining := width - cols * 180).
  assert (Hrem : 10 * (cols + 1) ≤ remaining) by (unfold remaining; lia).
  assert (Hq : remaining ÷ (cols + 1) = remaining / (cols + 1))
    by (apply Z.quot_div_nonneg; lia).
  assert (Hq10 : 10 ≤ remaining / (cols + 1))
    by (apply Z.div_le_lower_bound; lia).
  assert (Hsp : spacing = remaining / (cols + 1)).
  { unfold spacing, reflow_spacing. fold cols.
    unfold CARD_WIDTH, MIN_SPACING. fold remaining. rewrite Hq.
    destruct (Z.ltb_spec (remaining / (cols + 1)) 10); [lia | done]. }
  pose proof (Z.mul_div_le remaining (cols + 1) ltac:(lia)) as Hle.
  pose proof (Z.mul_succ_div_gt remaining (cols + 1) ltac:(lia)) as Hgt.
  rewrite <- Hsp in Hle, Hgt, Hq10.
  unfold CARD_WIDTH, MIN_SPACING, remaining in *.
  assert (Hcell : ∀ k, (grid_cell cols k).1 * cols + (grid_cell cols k).2
                       = Z.of_nat k).
  { intros k. unfold grid_cell. simpl.
    rewrite Z.mul_comm. symmetry. apply Z.div_mod. lia. }
  repeat split; try lia.
  - apply Hcell.
  - unfold grid_cell. simpl. apply Z.mod_pos_bound. lia.
  - unfold grid_cell. simpl. apply Z.mod_pos_bound. lia.
  - intros E. apply Nat2Z.inj. rewrite <- (Hcell i), <- (Hcell j). by rewrite E.
Qed.

End GridFacts.

Lemma reflow_grids_fits_witness :
  let cols := reflow_cols 1110 in
  let spacing := reflow_spacing 1110 in
  1 ≤ cols ∧ MIN_SPACING ≤ spacing
  ∧ cols * CARD_WIDTH + (cols + 1) * spacing ≤ 1110
  ∧ 1110 < cols * CARD_WIDTH + (cols + 1) * (spacing + 1)
  ∧ 1110 < (cols + 1) * CARD_WIDTH + (cols + 2) * MIN_SPACING
  ∧ (grid_cell cols 7).1 * cols + (grid_cell cols 7).2 = 7
  ∧ 0 ≤ (grid_cell cols 7).2 < cols
  ∧ (grid_cell cols 7 = grid_cell cols 2 → 7%nat = 2%nat).
Proof. apply (reflow_grids_fits 1110 7 2). lia. Defined.

(** ** Pages, whatever the cursor *)

Section PageFacts.

Context {A : Type}.
Implicit Types l : list A.

Lemma py_slice_length l (lo : Z) :
  (length (py_slice l lo (lo + BATCH_SIZE)) ≤ 50)%nat.
Proof.
  unfold py_slice, slice_bound, BATCH_SIZE. rewrite length_take.
  destruct (Z.ltb_spec lo 0), (Z.ltb_spec (lo + 50) 0); lia.
Qed.

Lemma py_slice_sublist l (lo hi : Z) : py_slice l lo hi `sublist_of` l.
Proof.
  unfold py_slice. etrans; [apply sublist_take | apply sublist_drop].
Qed.

End PageFacts.

Section SourcePages.

Variable lower : string → string.
Variable LOCAL_IMG_DIR : string.

(** X6: whatever the cursor, negative ones included, a page of the emoji
    source has at most 50 items, which are entries of the catalog in
    catalog order, and for a non-empty query each of them contains the
    lowered query in its lowered name or has it as its glyph. *)
Theorem EmojiSource_search_page_is_sound
    (all_emojis : list item) (query : string) (pos : option Z) :
  let page := (EmojiSource_search lower all_emojis query pos).1 in
  (length page ≤ 50)%nat
  ∧ page `sublist_of` all_emojis
  ∧ ∀ it, it ∈ page →
      query = ""
      ∨ (∃ pre post, lower (name it) = pre +:+ lower query +:+ post)
      ∨ lower query = url it.
Proof.
  unfold EmojiSource_search. cbv zeta.
  destruct (str_truthy query) eqn:Hq; simpl.
  - split; [apply py_slice_length|]. split.
    + etrans; [apply py_slice_sublist | apply sublist_List_filter].
    + intros it Hit. right.
      apply (λ H, elem_of_sublist _ _ _ H (py_slice_sublist _ _ _)) in Hit.
      apply list_elem_of_In, filter_In in Hit as [_ Hm].
      unfold emoji_matches in Hm.
      rewrite orb_true_iff, str_in_spec, String.eqb_eq in Hm. done.
  - apply str_truthy_false in Hq as ->.
    set (sliced := py_slice all_emojis _ _).
    assert (Hlen : (length sliced ≤ 50)%nat) by apply py_slice_length.
    assert (Hsub : sliced `sublist_of` all_emojis) by apply py_slice_sublist.
    destruct sliced; simpl in *; repeat split; auto.
Qed.

(** X7: whatever the cursor, a page of the local source has at most 50
    items, each built from a file of the directory listing whose lowered
    name ends in an image extension and, for a non-empty query, contains
    the lowered query: its name is the file name, its url the path of the
    file in the image directory, its original url what the imports file
    records for the name. *)
Theorem LocalSource_search_page_is_sound
    (listdir : option (list string)) (imports : imports_file)
    (query : string) (pos : option Z) :
  let page := (LocalSource_search lower LOCAL_IMG_DIR listdir imports query pos).1 in
  (length page ≤ 50)%nat
  ∧ ∀ it, it ∈ page →
      ∃ f, f ∈ default [] listdir
        ∧ it = mk_item f (path_join LOCAL_IMG_DIR f) "local" "Local"
                 (load_imports imports !! f)
        ∧ (∃ ext, ext ∈ image_exts ∧ ∃ pre, lower f = pre +:+ ext)
        ∧ (query = "" ∨ ∃ pre post, lower f = pre +:+ lower query +:+ post).
Proof.
  unfold LocalSource_search. cbv zeta.
  destruct listdir as [files|]; simpl.
  2:{ split; [lia|]. intros it H. by apply not_elem_of_nil in H. }
  set (all_files := List.filter _ files).
  set (sliced := py_slice all_files _ _).
  assert (Hlen : (length sliced ≤ 50)%nat) by apply py_slice_length.
  assert (Hsub : sliced `sublist_of` all_files) by apply py_slice_sublist.
  assert (Hpage : (match sliced with
                   | [] => ([], None)
                   | _ => (local_item LOCAL_IMG_DIR (load_imports imports) <$> sliced,
                           next_offset_of (offset_of pos) sliced all_files)
                   end).1
                  = local_item LOCAL_IMG_DIR (load_imports imports) <$> sliced)
    by by destruct sliced.
  rewrite Hpage, length_fmap. split; [done|].
  intros it Hit. apply list_elem_of_fmap in Hit as (f & -> & Hf).
  apply (λ H, elem_of_sublist _ _ _ H Hsub) in Hf.
  apply list_elem_of_In, filter_In in Hf as [Hf Hm].
  apply local_matches_spec in Hm as [Hext Hq].
  exists f. rewrite list_elem_of_In. done.
Qed.

(** X8: the chain of calls started without a cursor returns, over its
    pages, every matching entry exactly in the order of the catalog: the
    whole catalog of the emoji source for the empty query, its matching
    entries otherwise, and for the local source the matching files of the
    directory listing (held fixed along the chain). *)
Theorem cursor_chain_returns_the_whole_catalog
    (all_emojis : list item) (files : list string) (imports : imports_file)
    (query : string) :
  (∃ fuel pages,
     cursor_chain (EmojiSource_search lower all_emojis query) fuel None = Some pages
     ∧ mjoin pages
       = if str_truthy query
         then List.filter (emoji_matches lower (lower query)) all_emojis
         else all_emojis)
  ∧ (∃ fuel pages,
     cursor_chain (LocalSource_search lower LOCAL_IMG_DIR (Some files) imports query)
       fuel None = Some pages
     ∧ name <$> mjoin pages = List.filter (local_matches lower query) files).
Proof.
  split.
  - pose proof (EmojiSource_search_serves lower all_emojis query) as Hs.
    set (catalog := if str_truthy query then _ else _) in *.
    destruct (cursor_chain_serves _ _ _ Hs (S (length catalog)) None)
      as (pages & Hchain & Hjoin); [done | simpl; lia |].
    exists (S (length catalog)), pages. split; [done|].
    by rewrite Hjoin, list_fmap_id.
  - pose proof (LocalSource_search_serves lower LOCAL_IMG_DIR files imports query) as Hs.
    set (all_files := List.filter _ files) in *.
    destruct (cursor_chain_serves _ _ _ Hs (S (length all_files)) None)
      as (pages & Hchain & Hjoin); [done | simpl; lia |].
    exists (S (length all_files)), pages. split; [done|].
    rewrite Hjoin. simpl. rewrite <- list_fmap_compose. apply list_fmap_id.
Qed.

End SourcePages.

(** ** The emoji catalog *)

Section CatalogFacts.

Variable unicodedata_name : Z → option string.
Variable chr : Z → string.
Variable lower : string → string.
Variable title : string → string.

Lemma load_emoji_entries codes st :
  (∀ it, it ∈ (foldl (load_emoji unicodedata_name chr lower title) st codes).1 →
         it ∈ st.1 ∨ from_a_named_code unicodedata_name chr lower title codes it)
  ∧ (length (foldl (load_emoji unicodedata_name chr lower title) st codes).1
     ≤ length st.1 + length codes)%nat.
Proof.
  revert st. induction codes as [|c codes IH]; intros st; simpl.
  - split; [auto | lia].
  - destruct (IH (load_emoji unicodedata_name chr lower title st c)) as [IH1 IH2].
    assert (Hstep :
      (∀ it, it ∈ (load_emoji unicodedata_name chr lower title st c).1 →
             it ∈ st.1 ∨ from_a_named_code unicodedata_name chr lower title (c :: codes) it)
      ∧ (length (load_emoji unicodedata_name chr lower title st c).1
         ≤ S (length st.1))%nat).
    { destruct st as [all_emojis seen]. unfold load_emoji.
      destruct (unicodedata_name c) as [n|] eqn:Hn; [|simpl; split; [auto | lia]].
      destruct (decide (chr c ∈ seen)); simpl; [split; [auto | lia]|].
      split; [|rewrite length_app; simpl; lia].
      intros it [Hit|Hit]%elem_of_app; [by left|].
      apply list_elem_of_singleton in Hit as ->. right.
      exists c, n. split; [by left | done]. }
    destruct Hstep as [Hs1 Hs2]. split; [|lia].
    intros it Hit. destruct (IH1 it Hit) as [Hin|(code & n & Hc & Hn & E)].
    + apply Hs1, Hin.
    + right. exists code, n. split; [by right | done].
Qed.

(** X9: the catalog built by [_load_emojis] has at most 1856 entries with
    pairwise distinct glyphs; each comes from a code point of one of the
    eight ranges that has a Unicode name, and carries that name lowered
    and titled, the character as url, type [emoji] and source [Emoji]. *)
Theorem _load_emojis_catalog :
  let all_emojis := _load_emojis unicodedata_name chr lower title in
  NoDup (url <$> all_emojis)
  ∧ (length all_emojis ≤ 1856)%nat
  ∧ ∀ it, it ∈ all_emojis →
      ∃ code n lo hi,
        (lo, hi) ∈ emoji_ranges ∧ lo ≤ code ≤ hi
        ∧ unicodedata_name code = Some n
        ∧ it = mk_item (title (lower n)) (chr code) "emoji" "Emoji" None.
Proof.
  cbv zeta. split; [apply _load_emojis_NoDup|].
  unfold _load_emojis.
  destruct (load_emoji_entries (mjoin (code_range <$> emoji_ranges)) ([], ∅))
    as [H1 H2].
  split.
  - etrans; [exact H2|]. vm_compute. lia.
  - intros it Hit. destruct (H1 it Hit) as [Hin|(code & n & Hc & Hn & E)].
    { by apply not_elem_of_nil in Hin. }
    apply list_elem_of_join in Hc as (codes & Hc & Hr).
    apply list_elem_of_fmap in Hr as ([lo hi] & -> & Hr).
    exists code, n, lo, hi. repeat split; try done.
    + unfold code_range in Hc. apply list_elem_of_fmap in Hc as (k & -> & Hk).
      cbn [fst snd]. lia.
    + unfold code_range in Hc. apply list_elem_of_fmap in Hc as (k & -> & Hk).
      apply elem_of_seq in Hk. cbn [fst snd] in *. lia.
Qed.

End CatalogFacts.

(** ** Pages of the GIF search *)

Section TenorPages.

Variable strip : string → string.




Lemma tenor_results_stop l1 bad l2 results :
  tenor_item strip bad = None →
  tenor_results strip (l1 ++ bad :: l2) results = tenor_results strip l1 results.
Proof.
  intros Hbad. revert results.
  induction l1 as [|it l1 IH]; intros results; simpl.
  - by rewrite Hbad.
  - destruct (tenor_item strip it) as [[r|]|]; auto.
Qed.

(** X11: an entry of a 200 response on which the loop raises ends the
    page: the items gathered from the entries before it are returned with
    the cursor of the response, and no entry after it is looked at. *)
Theorem TenorSource_search_stops_at_a_bad_entry
    (cfg : config_file) (query : string) (pos : pyval)
    (data : list (string * pyval)) (l1 l2 : list pyval) (bad : pyval) :
  assoc "results" data = Some (PList (l1 ++ bad :: l2)) →
  tenor_item strip bad = None →
  TenorSource_search (λ _ _, http_response 200 (Some (PDict data))) strip cfg query pos
  = (tenor_results strip l1 [],
     py_or (default PNone (assoc "next" data))
           (default PNone (assoc "next_pos" data))).
Proof.
  intros Hres Hbad. unfold TenorSource_search. cbv zeta.
  destruct (tenor_request _ query pos) as [u params]. simpl.
  rewrite Hres. simpl. by rewrite tenor_results_stop.
Qed.

End TenorPages.

Lemma TenorSource_search_stops_at_a_bad_entry_witness :
  TenorSource_search
    (λ _ _, http_response 200 (Some (PDict
       [ ("next", PStr "16");
         ("results", PList
            ([ PDict [ ("media", PList [PDict [("tinygif", PDict [("url", PStr "https://t/c.gif")])]]);
                       ("title", PStr "cat") ] ]
             ++ PInt 3
             :: [ PDict [ ("media_formats", PDict [("gif", PDict [("url", PStr "https://t/d.gif")])]) ] ])) ])))
    id ConfigMissing "cat" PNone
  = (tenor_results id
       [ PDict [ ("media", PList [PDict [("tinygif", PDict [("url", PStr "https://t/c.gif")])]]);
                 ("title", PStr "cat") ] ] [],
     PStr "16").
Proof.
  apply (TenorSource_search_stops_at_a_bad_entry id ConfigMissing "cat" PNone
           [ ("next", PStr "16"); ("results", PList _) ]
           [ PDict [ ("media", PList [PDict [("tinygif", PDict [("url", PStr "https://t/c.gif")])]]);
                     ("title", PStr "cat") ] ]
           [ PDict [ ("media_formats", PDict [("gif", PDict [("url", PStr "https://t/d.gif")])]) ] ]
           (PInt 3)); reflexivity.
Defined.

(** ** The configuration *)

Section ConfigFacts.

Lemma load_config_fold (saved : list (string * pyval)) (cfg : gmap string pyval) k :
  k ≠ "theme" → NoDup saved.*1 →
  foldl (λ cfg e, if String.eqb (fst e) "theme" then cfg
                  else <[fst e := snd e]> cfg) cfg saved !! k
  = match assoc k saved with Some v => Some v | None => cfg !! k end.
Proof.
  intros Hk. revert cfg. induction saved as [|[k' v'] saved IH]; intros cfg Hnd;
    simpl; [done|].
  apply NoDup_cons in Hnd as [Hk' Hnd]. rewrite IH by done. simpl.
  destruct (String.eqb_spec k' k) as [->|Hne].
  - assert (Hnone : assoc k saved = None).
    { clear -Hk'. induction saved as [|[k2 v2] saved IH]; simpl; [done|].
      simpl in Hk'. apply not_elem_of_cons in Hk' as [? ?].
      destruct (String.eqb_spec k2 k); [congruence | auto]. }
    rewrite Hnone. destruct (String.eqb_spec k "theme"); [done|].
    apply lookup_insert_eq.
  - destruct (assoc k saved); [done|].
    destruct (String.eqb_spec k' "theme"); [done|]. by apply lookup_insert_ne.
Qed.

(** X12: [load_config] always yields a [tenor_key]: the one saved in the
    config file when the file holds a dict with that key, and the default
    key when the file is missing, unreadable, not a dict, or has no such
    key. *)
Theorem load_config_tenor_key (f : config_file) :
  (∀ saved, f = ConfigJson (PDict saved) → NoDup saved.*1) →
  load_config f !! "tenor_key"
  = Some match f with
         | ConfigJson (PDict saved) =>
             default (PStr DEFAULT_TENOR_KEY) (assoc "tenor_key" saved)
         | _ => PStr DEFAULT_TENOR_KEY
         end.
Proof.
  intros Hnd. unfold load_config.
  destruct f as [| |[| | | | |saved]]; try apply lookup_singleton_eq.
  rewrite load_config_fold; [|done|by apply Hnd].
  destruct (assoc "tenor_key" saved); [done|]. apply lookup_singleton_eq.
Qed.

End ConfigFacts.

Lemma load_config_tenor_key_witness :
  load_config (ConfigJson (PDict [("theme", PDict []); ("tenor_key", PStr "mykey")]))
    !! "tenor_key" = Some (PStr "mykey").
Proof.
  apply (load_config_tenor_key
           (ConfigJson (PDict [("theme", PDict []); ("tenor_key", PStr "mykey")]))).
  intros saved [= <-]. apply (bool_decide_unpack _). vm_compute. exact I.
Defined.

(** ** The emote search *)

Section SevenTVFacts.

Variable requests_post : string → pyval → http_result.

(** X13: when the request of the emote source raises or comes back with a
    status other than 200, [search] returns the empty list with no
    cursor. *)
Theorem SevenTVSource_search_soft_failure (query : string) (pos : pyval) :
  http_failed (requests_post query (seventv_page pos)) →
  SevenTVSource_search requests_post query pos = ([], PNone).
Proof.
  unfold SevenTVSource_search. cbv zeta.
  destruct (requests_post query (seventv_page pos)) as [|status_code json]; simpl;
    [done|].
  intros Hne. by destruct (Z.eqb_spec status_code 200).
Qed.




(** X15: the cursor of the emote source is a page counter: called with no
    cursor or with page [p], [search] returns either no cursor or the
    cursor [p + 1] (the first page being page 1), whatever the number of
    items it kept from the page. *)
Theorem SevenTVSource_search_next_page (query : string) (pos : pyval) (p : Z) :
  seventv_page pos = PInt p →
  (SevenTVSource_search requests_post query pos).2 = PNone
  ∨ (SevenTVSource_search requests_post query pos).2 = PInt (p + 1).
Proof.
  intros Hp. unfold SevenTVSource_search. cbv zeta. rewrite Hp.
  destruct (requests_post query (PInt p)) as [|status_code json]; [by left|].
  destruct (status_code =? 200); [|by left].
  destruct json as [data|]; [|by left].
  destruct (py_get data "data" PNone) as [d|]; [|by left].
  destruct (truthy d); [|by left].
  destruct (py_get d "emotes" PNone) as [emotes|]; [|by left].
  destruct (truthy emotes); [|by left].
  destruct (py_getitem emotes "items") as [items|]; [|by left].
  destruct (truthy items); [|by left].
  destruct (py_iter items) as [l|]; [|by left].
  destruct (seventv_results l []) as [results [|]]; [by right | by left].
Qed.

End SevenTVFacts.

Lemma SevenTVSource_search_soft_failure_witness :
  SevenTVSource_search (λ _ _, http_response 503 None) "pepe" PNone = ([], PNone).
Proof.
  apply (SevenTVSource_search_soft_failure (λ _ _, http_response 503 None)).
  simpl. lia.
Defined.


Lemma SevenTVSource_search_next_page_witness :
  (SevenTVSource_search (λ _ _, http_response 200 (Some (PDict
      [("data", PDict [("emotes", PDict [("items", PList
         [PDict [("name", PStr "Pepe")]])])])]))) "pepe" (PInt 3)).2 = PNone
  ∨ (SevenTVSource_search (λ _ _, http_response 200 (Some (PDict
      [("data", PDict [("emotes", PDict [("items", PList
         [PDict [("name", PStr "Pepe")]])])])]))) "pepe" (PInt 3)).2 = PInt (3 + 1).
Proof. apply SevenTVSource_search_next_page. reflexivity. Defined.

(** ** The driver within one session *)

Section SessionFacts.

Lemma step_idle app e :
  same_session e = true → in_flight app = [] →
  is_loading app = true ∨ truthy (next_ptr app) = false →
  step app e = app.
Proof.
  intros He Hf Hidle.
  destruct e as [?|value maximum|value maximum|i results next_pos|i]; simpl in *.
  - done.
  - unfold check_scroll. destruct (over_threshold value maximum); [|done].
    destruct Hidle as [-> | ->]; [done | by rewrite andb_false_r].
  - unfold fill_screen_if_needed.
    destruct Hidle as [-> | ->]; [done | by rewrite orb_true_r].
  - by rewrite Hf.
  - destruct app. simpl in *. by subst.
Qed.

(** X16: once nothing is in flight and either the cursor is empty (the
    source is exhausted) or the loading flag is still up (the worker
    ended without a page), no scroll, timer or arrival changes the driver
    or starts a fetch: only a new search does. *)
Theorem exhausted_session_stays_put (app : App) (events : list event) :
  in_flight app = [] →
  is_loading app = true ∨ truthy (next_ptr app) = false →
  forallb same_session events = true →
  run events app = app.
Proof.
  intros Hf Hidle. unfold run.
  induction events as [|e events IH]; simpl; [done|].
  intros [He Hes]%andb_true_iff. rewrite step_idle by done. by apply IH.
Qed.

Lemma step_keeps_cards app e :
  same_session e = true →
  shown_items app `prefix_of` shown_items (step app e).
Proof.
  intros He.
  destruct e as [?|value maximum|value maximum|i results next_pos|i]; simpl in *.
  - done.
  - unfold check_scroll. destruct (over_threshold value maximum); [|done].
    by destruct (negb (is_loading app) && truthy (next_ptr app)).
  - unfold fill_screen_if_needed.
    destruct (is_loading app || negb (truthy (next_ptr app))); [done|].
    by destruct ((maximum <=? 0) || (10 * value >=? 9 * maximum)).
  - destruct (in_flight app !! i); [|done].
    unfold shown_items. simpl.
    destruct results as [|r rs], (search_card_widgets app) as [|w ws] eqn:Hw;
      try (rewrite shown_items_app; by apply prefix_app_r).
    done.
  - done.
Qed.

(** X17: within a session the cards on display are only ever added to: at
    every later moment before the next search, the cards shown earlier
    are still shown, in the same order, at the head of the list. *)
Theorem session_keeps_its_cards (app : App) (events : list event) :
  forallb same_session events = true →
  shown_items app `prefix_of` shown_items (run events app).
Proof.
  unfold run. revert app.
  induction events as [|e events IH]; intros app; simpl; [done|].
  intros [He Hes]%andb_true_iff.
  etrans; [by apply step_keeps_cards | by apply IH].
Qed.

End SessionFacts.

Lemma exhausted_session_stays_put_witness :
  let smile := mk_item "Grinning Face" "😀" "emoji" "Emoji" None in
  let done_ := run [Results 0 [smile] PNone] (search "Emojis" "grin" App_init) in
  run [Scroll 95 100; FillTimer 0 0; Results 0 [smile] (PInt 50); WorkerDies 0] done_
  = done_.
Proof.
  intros smile done_.
  apply (exhausted_session_stays_put done_); [reflexivity | by right | reflexivity].
Defined.

Lemma session_keeps_its_cards_witness :
  let smile := mk_item "Grinning Face" "😀" "emoji" "Emoji" None in
  let app := run [Results 0 [smile] (PInt 50)] (search "Emojis" "" App_init) in
  shown_items app
  `prefix_of` shown_items (run [FillTimer 0 0; Results 0 [smile; smile] PNone] app).
Proof.
  intros smile app.
  apply (session_keeps_its_cards app). reflexivity.
Defined.

(** ** Importing from a URL *)

Section ImportFacts.

Variable hash : string → Z.
Variable guess_extension : option string → option (option string).
Variable lower : string → string.
Variable LOCAL_IMG_DIR : string.

Lemma record_import_lookup fname src imports :
  imports ≠ ImportsCorrupt →
  load_imports (record_import fname src imports) !! fname = Some src.
Proof.
  destruct imports as [| |m]; simpl; intros H; [|done|].
  - apply lookup_singleton_eq.
  - apply lookup_insert_eq.
Qed.

Lemma import_done_inv ok src r write_ok imports fname content imports' :
  import_from_url hash guess_extension ok src r write_ok imports
    = import_done fname content imports' →
  src ≠ ""
  ∧ r = import_get_response 200 (match r with
                                 | import_get_response _ ct _ => ct
                                 | import_get_raises => None
                                 end) content
  ∧ (∃ ext, fname = import_fname hash src ext)
  ∧ imports' = record_import fname src imports.
Proof.
  unfold import_from_url.
  destruct ok; simpl; [|done].
  destruct (str_truthy src) eqn:Hs; [|done].
  destruct r as [|status_code ct body]; [done|].
  destruct (Z.eqb_spec status_code 200) as [->|]; [|done].
  destruct (guess_extension ct) as [guessed|]; [|done].
  destruct write_ok; [|done].
  intros [= <- <- <-]. repeat split; [by intros -> | by eexists].
Qed.

(** X18: after [import_from_url] has saved an image and recorded it in a
    readable (or new) imports file, the local source shows it with its
    provenance: over any listing of the image directory that contains the
    saved file, whose name passes the image-extension test, the chain of
    searches with the empty query returns an item named after the file
    whose original url is the imported url. *)
Theorem imported_file_is_listed_with_its_origin
    (src : string) (r : import_get) (imports imports' : imports_file)
    (fname : string) (content : list Byte.byte) (files : list string) :
  import_from_url hash guess_extension true src r true imports
    = import_done fname content imports' →
  imports ≠ ImportsCorrupt →
  fname ∈ files →
  local_matches lower "" fname = true →
  ∃ fuel pages it,
    cursor_chain (LocalSource_search lower LOCAL_IMG_DIR (Some files) imports' "")
      fuel None = Some pages
    ∧ it ∈ mjoin pages
    ∧ name it = fname
    ∧ url it = path_join LOCAL_IMG_DIR fname
    ∧ original_url it = Some src.
Proof.
  intros Himp Hok Hin Hm.
  apply import_done_inv in Himp as (_ & _ & _ & ->).
  pose proof (LocalSource_search_serves lower LOCAL_IMG_DIR files
                (record_import fname src imports) "") as Hs.
  set (all_files := List.filter _ files) in *.
  destruct (cursor_chain_serves _ _ _ Hs (S (length all_files)) None)
    as (pages & Hchain & Hjoin); [done | simpl; lia |].
  exists (S (length all_files)), pages,
    (local_item LOCAL_IMG_DIR (load_imports (record_import fname src imports)) fname).
  split; [done|]. split.
  - rewrite Hjoin. simpl. apply list_elem_of_fmap. exists fname. split; [done|].
    change (Z.to_nat 0) with O. rewrite drop_0. unfold all_files.
    by rewrite list_elem_of_In, filter_In, <- list_elem_of_In.
  - simpl. repeat split. by apply record_import_lookup.
Qed.

(** X19: [import_from_url] saves something only when the dialog was
    accepted with a non-empty url and the download answered 200; the file
    is then named [imported_], the absolute value of the hash of the url,
    and an extension, and the imports file maps that name to the url
    unless it was unreadable, in which case it is left as it was and the
    provenance is lost. *)
Theorem import_from_url_saves_under_the_hash
    (ok : bool) (src : string) (r : import_get) (write_ok : bool)
    (imports imports' : imports_file) (fname : string) (content : list Byte.byte) :
  import_from_url hash guess_extension ok src r write_ok imports
    = import_done fname content imports' →
  ok = true ∧ src ≠ "" ∧ write_ok = true
  ∧ (∃ content_type, r = import_get_response 200 content_type content)
  ∧ (∃ ext, fname = "imported_" +:+ pretty (Z.abs (hash src)) +:+ ext
            ∧ ext ≠ ""
            ∧ (guess_extension (match r with
                                | import_get_response _ ct _ => ct
                                | import_get_raises => None
                                end) ∈ [Some None; Some (Some "")] →
               ext ∈ [".gif"; ".webp"; ".png"; ".jpg"]))
  ∧ (imports = ImportsCorrupt → imports' = ImportsCorrupt)
  ∧ (imports ≠ ImportsCorrupt → load_imports imports' !! fname = Some src)
  ∧ (∀ other, other ≠ fname →
       load_imports imports' !! other = load_imports imports !! other).
Proof.
  unfold import_from_url.
  destruct ok; simpl; [|done].
  destruct (str_truthy src) eqn:Hs; [|done].
  destruct r as [|status_code ct body]; [done|].
  destruct (Z.eqb_spec status_code 200) as [->|]; [|done].
  destruct (guess_extension ct) as [guessed|] eqn:Hg; [|done].
  destruct write_ok; [|done].
  intros [= <- <- <-].
  assert (Hurl_ext : url_ext src ∈ [".gif"; ".webp"; ".png"; ".jpg"]).
  { unfold url_ext. repeat case_match; rewrite !elem_of_cons; auto 6. }
  assert (Hurl_ne : url_ext src ≠ "").
  { unfold url_ext. repeat case_match; done. }
  repeat split; try done.
  - by intros ->.
  - by eexists.
  - eexists. split; [reflexivity|]. split.
    + destruct guessed as [e|]; [|done].
      destruct (str_truthy e) eqn:He; [by intros -> | done].
    + intros Hin. destruct guessed as [e|].
      * destruct (str_truthy e) eqn:He; [|done].
        apply elem_of_cons in Hin as [[=]|Hin].
        apply list_elem_of_singleton in Hin as [= ->]. done.
      * done.
  - by intros ->.
  - apply record_import_lookup.
  - intros other Hne. destruct imports as [| |m]; simpl; [|done|].
    + rewrite lookup_singleton_ne by done. done.
    + by rewrite lookup_insert_ne.
Qed.

End ImportFacts.

Lemma imported_file_is_listed_with_its_origin_witness :
  let hash := λ s, - Z.of_nat (String.length s) in
  let guess := λ ct : option string, match ct with
                                     | Some _ => Some (Some ".gif")
                                     | None => None
                                     end in
  ∃ fuel pages it,
    cursor_chain
      (LocalSource_search ascii_lower "/data/local_images"
         (Some ["b.png"; "imported_18.gif"])
         (ImportsMap {[ "imported_18.gif" := "https://host/x.gif" ]}) "")
      fuel None = Some pages
    ∧ it ∈ mjoin pages
    ∧ name it = "imported_18.gif"
    ∧ url it = path_join "/data/local_images" "imported_18.gif"
    ∧ original_url it = Some "https://host/x.gif".
Proof.
  intros hash guess.
  apply (imported_file_is_listed_with_its_origin hash guess ascii_lower
           "/data/local_images" "https://host/x.gif"
           (import_get_response 200 (Some "image/gif") [Byte.x47])
           ImportsMissing _ "imported_18.gif" [Byte.x47]
           ["b.png"; "imported_18.gif"]).
  - reflexivity.
  - done.
  - apply (bool_decide_unpack _). vm_compute. exact I.
  - reflexivity.
Defined.

Lemma import_from_url_saves_under_the_hash_witness :
  let hash := λ s, - Z.of_nat (String.length s) in
  let src := "https://host/x.gif" in
  true = true ∧ src ≠ "" ∧ true = true
  ∧ (∃ content_type,
       import_get_response 200 None [Byte.x47]
       = import_get_response 200 content_type [Byte.x47])
  ∧ (∃ ext, "imported_18.gif" = "imported_" +:+ pretty (Z.abs (hash src)) +:+ ext
            ∧ ext ≠ ""
            ∧ (Some None ∈ [Some None; Some (Some "")] →
               ext ∈ [".gif"; ".webp"; ".png"; ".jpg"]))
  ∧ (ImportsCorrupt = ImportsCorrupt → ImportsCorrupt = ImportsCorrupt)
  ∧ (ImportsCorrupt ≠ ImportsCorrupt →
     load_imports ImportsCorrupt !! "imported_18.gif" = Some src)
  ∧ (∀ other, other ≠ "imported_18.gif" →
       load_imports ImportsCorrupt !! other = load_imports ImportsCorrupt !! other).
Proof.
  intros hash src.
  apply (import_from_url_saves_under_the_hash hash (λ _, Some None) true src
           (import_get_response 200 None [Byte.x47]) true
           ImportsCorrupt ImportsCorrupt "imported_18.gif" [Byte.x47]).
  reflexivity.
Defined.

(** ** Filling the screen from the emoji source *)

Section FillFacts.

Variable lower : string → string.
Variable all_emojis : list item.
Variable query : string.

Let catalog : list item :=
  if str_truthy query
  then List.filter (emoji_matches lower (lower query)) all_emojis
  else all_emojis.

Lemma emoji_worker_page (offset : nat) (w : SearchWorker) :
  w_query w = query →
  w_pos w = (if offset is O then PNone else PInt (Z.of_nat offset)) →
  emoji_worker_run lower all_emojis w
  = Some (take 50 (drop offset catalog),
          if (offset + 50 <? length catalog)%nat
          then PInt (Z.of_nat (offset + 50)) else PNone).
Proof.
  intros Hq Hp. unfold emoji_worker_run. rewrite Hp, Hq.
  pose proof (EmojiSource_search_serves lower all_emojis query) as Hs.
  fold catalog in Hs.
  set (pos := if offset is O then None else Some (Z.of_nat offset)).
  assert (Hoff : offset_of pos = Z.of_nat offset).
  { unfold pos. clear. by destruct offset. }
  assert (Hpos : int_cursor (if offset is O then PNone else PInt (Z.of_nat offset))
                 = Some pos) by (unfold pos; clear; by destruct offset).
  rewrite Hpos. simpl. rewrite (Hs pos) by lia. cbv zeta.
  rewrite Hoff, Nat2Z.id. simpl. f_equal. f_equal; [apply list_fmap_id|].
  unfold next_offset_of, len. rewrite length_take, length_drop.
  case_geb; destruct (Nat.ltb_spec (offset + 50) (length catalog)); try lia.
  - done.
  - f_equal. lia.
Qed.

Lemma fill_round_advances (offset : nat) (app : App) :
  filling catalog query offset app →
  filled catalog (fill_round lower all_emojis app)
  ∨ ((offset + 50 < length catalog)%nat
     ∧ filling catalog query (offset + 50) (fill_round lower all_emojis app)).
Proof.
  intros (Hle & Hshown & Hempty & Hload & Hq & w & Hw & Hwq & Hwp).
  unfold fill_round. rewrite Hw, (emoji_worker_page offset w Hwq Hwp).
  set (page := take 50 (drop offset catalog)).
  assert (Hshown' : ∀ next_pos a,
            search_card_widgets a = search_card_widgets app →
            shown_items (display_results page next_pos a)
            = take (offset + 50) catalog).
  { intros next_pos a Ha. unfold shown_items in *. simpl. rewrite Ha.
    rewrite <- take_take_drop, <- Hshown. fold page.
    destruct page as [|r rs], (search_card_widgets app) as [|x xs] eqn:Hx;
      try (by rewrite shown_items_app).
    by rewrite app_nil_r. }
  destruct (Nat.ltb_spec (offset + 50) (length catalog)) as [Hmore|Hlast].
  - right. split; [done|].
    unfold step at 2. rewrite Hw. cbn [lookup list_lookup].
    set (arrived := display_results _ _ _).
    assert (Hfill : step arrived (FillTimer 0 0) = load_more arrived).
    { unfold step, fill_screen_if_needed, arrived. simpl.
      destruct (Z.eqb_spec (Z.of_nat (offset + 50)) 0); [lia | done]. }
    rewrite Hfill. unfold filling.
    split; [lia|]. split; [by apply Hshown'|]. split; [lia|].
    split; [done|]. split; [done|].
    eexists. split; [reflexivity|]. simpl. split; [done|].
    rewrite Nat.add_comm. done.
  - left.
    unfold step at 2. rewrite Hw. cbn [lookup list_lookup].
    set (arrived := display_results _ _ _).
    assert (Hfill : step arrived (FillTimer 0 0) = arrived) by done.
    rewrite Hfill. unfold filled. split; [|done].
    unfold arrived. rewrite Hshown' by done. apply take_ge. lia.
Qed.

Lemma fill_rounds_filled (n : nat) (app : App) :
  filled catalog app → fill_rounds lower all_emojis n app = app.
Proof.
  intros (_ & Hf & _). induction n as [|n IH]; simpl; [done|].
  unfold fill_round. by rewrite Hf.
Qed.

Lemma fill_rounds_reach_the_end (n offset : nat) (app : App) :
  (length catalog - offset < n)%nat →
  filling catalog query offset app →
  filled catalog (fill_rounds lower all_emojis n app).
Proof.
  revert offset app. induction n as [|n IH]; intros offset app Hn Hfill; [lia|].
  simpl. destruct (fill_round_advances offset app Hfill) as [Hdone|[Hmore Hnext]].
  - by rewrite fill_rounds_filled.
  - apply (IH (offset + 50)%nat); [lia | done].
Qed.

(** X20: a search on the emoji source whose viewport never fills keeps
    fetching by itself: with each running worker delivering the page
    [EmojiSource.search] returns for its cursor and the fill timer firing
    after each arrival, the driver ends, after at most one round per
    catalog entry, with every matching entry of the catalog on display in
    catalog order, nothing in flight, the loading flag down and the cursor
    empty. *)
Theorem emoji_session_fills_to_the_end (source_name : string) :
  let app := fill_rounds lower all_emojis (S (length catalog))
               (search source_name query App_init) in
  shown_items app
  = (if str_truthy query
     then List.filter (emoji_matches lower (lower query)) all_emojis
     else all_emojis)
  ∧ in_flight app = [] ∧ is_loading app = false ∧ next_ptr app = PNone.
Proof.
  apply (fill_rounds_reach_the_end (S (length catalog)) O); [lia|].
  unfold filling. simpl. repeat split; try done; try lia.
  eexists. split; [reflexivity | done].
Qed.

End FillFacts.

